(** * whats-conversa: the inbound webhook pipeline and the read reconciler

    A shallow embedding of the backend's webhook controller
    ([getMessageContent], [getLastMessagePreview], [handleMessagesUpsert],
    [handleMessagesUpdate], [handleConnectionUpdate], [handleQrCodeUpdate],
    [handleWebhook]) and of [markAsRead] from the message controller.

    The relational store is a record of tables (lists of rows, in insertion
    order); the unique indexes of the migration are checked by the [create]
    primitives.  Every handler runs in a state-and-exception monad over a
    [World]: the store, the socket emissions, the gateway calls, and two
    fault schedules that say which of the coming database and gateway calls
    reject. *)

From Stdlib Require Import List String Ascii ZArith Bool Arith Lia.
From Stdlib Require Import Sorting.Sorted Sorting.Permutation.
Import ListNotations.
Open Scope string_scope.

(** ** JavaScript values the handlers inspect *)

Module Js.

(** Truthiness of an optional string: [undefined], [null] and [""] are falsy. *)
Definition truthy (o : option string) : bool :=
  match o with
  | Some s => negb (s =? "")
  | None => false
  end.

(** [a || b] on optional strings. *)
Definition or_else (a b : option string) : option string :=
  if truthy a then a else b.

(** [a || null]. *)
Definition or_null (a : option string) : option string :=
  or_else a None.

(** Truthiness of an optional number: [undefined] and [0] are falsy. *)
Definition truthy_num (o : option Z) : bool :=
  match o with
  | Some z => negb (z =? 0)%Z
  | None => false
  end.

(** [s.replace(pat, rep)] with a string pattern: the first occurrence only. *)
Definition replace (pat rep s : string) : string :=
  match index 0 pat s with
  | Some n =>
      substring 0 n s ++ rep ++
      substring (n + length pat) (length s - (n + length pat)) s
  | None => s
  end.

(** [s.endsWith(suf)]. *)
Definition endsWith (suf s : string) : bool :=
  Nat.leb (length suf) (length s) &&
  (substring (length s - length suf) (length suf) s =? suf).

Definition upper_ascii (c : ascii) : ascii :=
  let n := nat_of_ascii c in
  if Nat.leb 97 n && Nat.leb n 122 then ascii_of_nat (n - 32) else c.

(** [s.toUpperCase()], on the ASCII letters (the event names the router
    knows are ASCII; other code points are left as they are). *)
Fixpoint toUpperCase (s : string) : string :=
  match s with
  | EmptyString => EmptyString
  | String c r => String (upper_ascii c) (toUpperCase r)
  end.

(** [s.replace(/\./g, '_')]. *)
Fixpoint dots_to_underscores (s : string) : string :=
  match s with
  | EmptyString => EmptyString
  | String c r =>
      String (if Ascii.eqb c "."%char then "_"%char else c)
             (dots_to_underscores r)
  end.

End Js.

(** ** Enumerations of the schema *)

Inductive ConversationStatus := OPEN | PENDING_CONV | RESOLVED | SPAM.

Inductive MessageType :=
  TEXT | IMAGE | VIDEO | AUDIO | DOCUMENT | STICKER | LOCATION | CONTACT | REACTION.

Inductive MessageStatus := PENDING | SENT | DELIVERED | READ | FAILED.

Inductive InstanceStatus := DISCONNECTED | CONNECTING | CONNECTED | QRCODE.

Definition ConversationStatus_eqb (a b : ConversationStatus) : bool :=
  match a, b with
  | OPEN, OPEN | PENDING_CONV, PENDING_CONV | RESOLVED, RESOLVED | SPAM, SPAM => true
  | _, _ => false
  end.

Definition MessageStatus_eqb (a b : MessageStatus) : bool :=
  match a, b with
  | PENDING, PENDING | SENT, SENT | DELIVERED, DELIVERED | READ, READ
  | FAILED, FAILED => true
  | _, _ => false
  end.

Definition InstanceStatus_eqb (a b : InstanceStatus) : bool :=
  match a, b with
  | DISCONNECTED, DISCONNECTED | CONNECTING, CONNECTING | CONNECTED, CONNECTED
  | QRCODE, QRCODE => true
  | _, _ => false
  end.

(** ** Vendor payloads (types/index.ts)

    A JSON object is seen through the fields the handlers read; an absent
    field is [None].  Numbers that are only copied (coordinates) are kept as
    the literal the vendor sent. *)

(** [key]: both guards on it ([!key.remoteJid], [!update.key?.id]) take an
    absent string and an empty one alike, so [""] stands for both. *)
Record Key := {
  remoteJid : string;
  fromMe : bool;
  key_id : string;
}.

Record ContextInfo := { stanzaId : option string }.

Record ExtendedTextMessage := {
  text : option string;
  contextInfo : option ContextInfo;
}.

Record ImageMessage := {
  image_url : option string;
  image_mimetype : option string;
  image_caption : option string;
}.

Record VideoMessage := {
  video_url : option string;
  video_mimetype : option string;
  video_caption : option string;
}.

Record AudioMessage := {
  audio_url : option string;
  audio_mimetype : option string;
}.

Record DocumentMessage := {
  document_url : option string;
  document_mimetype : option string;
  document_title : option string;
  document_fileName : option string;
}.

Record StickerMessage := {
  sticker_url : option string;
  sticker_mimetype : option string;
}.

Record LocationMessage := {
  degreesLatitude : option string;
  degreesLongitude : option string;
  location_name : option string;
  location_address : option string;
}.

Record ContactMessage := {
  displayName : option string;
  vcard : option string;
}.

Record ReactionMessage := { reaction_text : option string }.

Record MessageBody := {
  conversation : option string;
  extendedTextMessage : option ExtendedTextMessage;
  imageMessage : option ImageMessage;
  videoMessage : option VideoMessage;
  audioMessage : option AudioMessage;
  documentMessage : option DocumentMessage;
  stickerMessage : option StickerMessage;
  locationMessage : option LocationMessage;
  contactMessage : option ContactMessage;
  reactionMessage : option ReactionMessage;
}.

Record StatusUpdate := { update_status : option Z }.

Record QrCode := { base64 : option string }.

(** One element of [data], wide enough for every handler: the upsert handler
    reads [key], [pushName], [message], [messageTimestamp]; the update
    handler [key] and [update]; the connection handler [state]; the pairing
    handler [qrcode]. *)
Record Item := {
  key : option Key;
  pushName : option string;
  message : option MessageBody;
  messageTimestamp : option Z;
  update : option StatusUpdate;
  state : option string;
  qrcode : option QrCode;
}.

(** [data] is any JSON: an array of values or one value; a value that is
    [null] or [undefined] is [None]. *)
Inductive Data :=
| DArray (items : list (option Item))
| DValue (v : option Item).

Record WebhookPayload := {
  event : option string;       (* [None]: no string under [event] *)
  instance : string;
  data : Data;
}.

Definition empty_body : MessageBody :=
  {| conversation := None; extendedTextMessage := None; imageMessage := None;
     videoMessage := None; audioMessage := None; documentMessage := None;
     stickerMessage := None; locationMessage := None; contactMessage := None;
     reactionMessage := None |}.

Definition empty_item : Item :=
  {| key := None; pushName := None; message := None; messageTimestamp := None;
     update := None; state := None; qrcode := None |}.

(** [Array.isArray(data) ? data : [data]]. *)
Definition as_array (d : Data) : list (option Item) :=
  match d with
  | DArray l => l
  | DValue v => [v]
  end.

(** [data] read as one object: an array has none of the fields. *)
Definition as_object (d : Data) : option Item :=
  match d with
  | DArray _ => Some empty_item
  | DValue v => v
  end.

(** ** Message normalizer *)

(** The stored [content]: raw text, or the JSON descriptor that
    [JSON.stringify] builds for a location or a shared contact. *)
Inductive Content :=
| Raw (s : string)
| LocationJson (latitude longitude name address : option string)
| ContactJson (displayName vcard : option string).

Definition raw (o : option string) : option Content := option_map Raw o.

Record Normalized := {
  n_content : option Content;
  n_type : MessageType;
  n_mediaUrl : option string;
  n_mediaMimeType : option string;
  n_mediaFileName : option string;
}.

Definition plain (c : option Content) (t : MessageType) : Normalized :=
  {| n_content := c; n_type := t; n_mediaUrl := None; n_mediaMimeType := None;
     n_mediaFileName := None |}.

Definition media (c : option Content) (t : MessageType)
  (url mime file : option string) : Normalized :=
  {| n_content := c; n_type := t; n_mediaUrl := url; n_mediaMimeType := mime;
     n_mediaFileName := file |}.

(** [message.extendedTextMessage?.text]. *)
Definition extended_text (b : MessageBody) : option string :=
  match extendedTextMessage b with
  | Some e => text e
  | None => None
  end.

Definition getMessageContent (messageData : Item) : Normalized :=
  match message messageData with
  | None => plain None TEXT
  | Some m =>
      if Js.truthy (conversation m) then plain (raw (conversation m)) TEXT
      else if Js.truthy (extended_text m) then plain (raw (extended_text m)) TEXT
      else match imageMessage m with
      | Some im =>
          media (raw (Js.or_null (image_caption im))) IMAGE
                (image_url im) (image_mimetype im) None
      | None =>
      match videoMessage m with
      | Some vm =>
          media (raw (Js.or_null (video_caption vm))) VIDEO
                (video_url vm) (video_mimetype vm) None
      | None =>
      match audioMessage m with
      | Some am => media None AUDIO (audio_url am) (audio_mimetype am) None
      | None =>
      match documentMessage m with
      | Some dm =>
          media None DOCUMENT (document_url dm) (document_mimetype dm)
                (Js.or_else (document_fileName dm) (document_title dm))
      | None =>
      match stickerMessage m with
      | Some sm => media None STICKER (sticker_url sm) (sticker_mimetype sm) None
      | None =>
      match locationMessage m with
      | Some loc =>
          plain (Some (LocationJson (degreesLatitude loc) (degreesLongitude loc)
                                    (location_name loc) (location_address loc)))
                LOCATION
      | None =>
      match contactMessage m with
      | Some cm => plain (Some (ContactJson (displayName cm) (vcard cm))) CONTACT
      | None =>
      match reactionMessage m with
      | Some rm => plain (raw (reaction_text rm)) REACTION
      | None => plain None TEXT
      end end end end end end end end
  end.

(** [content || ''] and [content ? a : b] on a stored content. *)
Definition content_truthy (c : option Content) : bool :=
  match c with
  | Some (Raw s) => negb (s =? "")
  | Some _ => true
  | None => false
  end.

(** The text a content interpolates to; the descriptors stand for their JSON
    text, which only ever reaches the preview through TEXT-like types. *)
Definition content_text (c : option Content) : string :=
  match c with
  | Some (Raw s) => s
  | _ => ""
  end.

Definition getLastMessagePreview (type : MessageType) (content : option Content)
  : string :=
  match type with
  | TEXT => if content_truthy content then content_text content else ""
  | IMAGE =>
      if content_truthy content then "[imagem] " ++ content_text content
      else "[imagem]"
  | VIDEO =>
      if content_truthy content then "[vídeo] " ++ content_text content
      else "[vídeo]"
  | AUDIO => "[áudio]"
  | DOCUMENT => "[documento]"
  | STICKER => "[figurinha]"
  | LOCATION => "[localização]"
  | CONTACT => "[contato]"
  | REACTION => if content_truthy content then content_text content else ""
  end.

(** ** The store (migration.sql)

    Row identifiers are drawn from a counter.  Columns no handler here reads
    or writes are left out.  [unreadCount] is a natural number: a write
    outside the range of the column is one of the rejections the fault
    schedule of the database stands for. *)

Record Instance := {
  i_id : nat;
  i_name : string;
  i_apiKey : option string;
  i_status : InstanceStatus;
  i_qrCode : option string;
}.

Record Contact := {
  c_id : nat;
  c_remoteJid : string;
  c_pushName : option string;
  c_phoneNumber : option string;
  c_isGroup : bool;
  c_instanceId : nat;
}.

Record Conversation := {
  cv_id : nat;
  cv_status : ConversationStatus;
  cv_unreadCount : nat;
  cv_lastMessageAt : option Z;
  cv_lastMessage : option string;
  cv_instanceId : nat;
  cv_contactId : nat;
}.

Record Message := {
  m_id : nat;
  m_messageId : string;
  m_content : option Content;
  m_type : MessageType;
  m_status : MessageStatus;
  m_isFromMe : bool;
  m_timestamp : Z;
  m_mediaUrl : option string;
  m_mediaMimeType : option string;
  m_mediaFileName : option string;
  m_quotedMessageId : option string;
  m_instanceId : nat;
  m_contactId : nat;
  m_conversationId : nat;
}.

(** ** Real-time channel and gateway *)

Inductive Topic :=
| Room (conversationId : nat)        (* [io.to(`conversation:${id}`)] *)
| Broadcast.                         (* [io.emit] *)

Inductive Payload :=
| PMessage (m : Message)
| PNotification (m : Message) (contact : Contact) (conversationId : nat)
| PConversation (c : Conversation)
| PMessageStatus (id : nat) (status : MessageStatus)
| PInstanceStatus (instanceId : nat) (instanceName : string) (status : InstanceStatus)
| PInstanceQrcode (instanceId : nat) (instanceName : string) (qr : string).

Record Event := {
  ev_topic : Topic;
  ev_name : string;
  ev_payload : Payload;
}.

Record ReadKey := {
  rk_remoteJid : string;
  rk_fromMe : bool;
  rk_id : string;
}.

Inductive GatewayCall :=
| MarkMessageAsRead (instanceName : string) (readMessages : list ReadKey)
                    (apiKey : option string).

(** ** The world a handler runs in *)

Record World := {
  instances : list Instance;
  contacts : list Contact;
  conversations : list Conversation;
  messages : list Message;
  next_id : nat;                 (* identifier generator of the store *)
  now : Z;                       (* [new Date()] *)
  db_faults : list bool;         (* [true]: the next database call rejects *)
  gw_faults : list bool;         (* [true]: the next gateway call rejects *)
  emitted : list Event;          (* socket emissions, oldest first *)
  gw_calls : list GatewayCall;   (* gateway calls, oldest first *)
}.

Inductive Exn :=
| TypeError            (* property read on [null] or [undefined] *)
| DbError              (* the database call rejected *)
| UniqueViolation      (* a unique index refused the row *)
| RecordNotFound       (* [update] on a row that is not there *)
| GatewayError.        (* the gateway call rejected *)

Inductive Outcome (A : Type) :=
| Ok (a : A)
| Throw (e : Exn).
Arguments Ok {A} a.
Arguments Throw {A} e.

Definition M (A : Type) : Type := World -> Outcome A * World.

Definition ret {A} (a : A) : M A := fun w => (Ok a, w).

Definition bind {A B} (m : M A) (k : A -> M B) : M B :=
  fun w =>
    match m w with
    | (Ok a, w') => k a w'
    | (Throw e, w') => (Throw e, w')
    end.

Definition throw {A} (e : Exn) : M A := fun w => (Throw e, w).

(** [try { m } catch (e) { h e }]. *)
Definition try_catch {A} (m : M A) (h : Exn -> M A) : M A :=
  fun w =>
    match m w with
    | (Ok a, w') => (Ok a, w')
    | (Throw e, w') => h e w'
    end.

Declare Scope m_scope.
Delimit Scope m_scope with M.
Notation "x <- m ;; k" := (bind m (fun x => k))
  (at level 61, m at next level, right associativity) : m_scope.
Notation "m ;; k" := (bind m (fun _ => k))
  (at level 61, right associativity) : m_scope.
Open Scope m_scope.

(** Setters of the world's fields. *)

Definition set_instances (l : list Instance) (w : World) : World :=
  {| instances := l; contacts := contacts w; conversations := conversations w;
     messages := messages w; next_id := next_id w; now := now w;
     db_faults := db_faults w; gw_faults := gw_faults w; emitted := emitted w;
     gw_calls := gw_calls w |}.

Definition set_contacts (l : list Contact) (w : World) : World :=
  {| instances := instances w; contacts := l; conversations := conversations w;
     messages := messages w; next_id := next_id w; now := now w;
     db_faults := db_faults w; gw_faults := gw_faults w; emitted := emitted w;
     gw_calls := gw_calls w |}.

Definition set_conversations (l : list Conversation) (w : World) : World :=
  {| instances := instances w; contacts := contacts w; conversations := l;
     messages := messages w; next_id := next_id w; now := now w;
     db_faults := db_faults w; gw_faults := gw_faults w; emitted := emitted w;
     gw_calls := gw_calls w |}.

Definition set_messages (l : list Message) (w : World) : World :=
  {| instances := instances w; contacts := contacts w;
     conversations := conversations w; messages := l; next_id := next_id w;
     now := now w; db_faults := db_faults w; gw_faults := gw_faults w;
     emitted := emitted w; gw_calls := gw_calls w |}.

Definition set_next_id (n : nat) (w : World) : World :=
  {| instances := instances w; contacts := contacts w;
     conversations := conversations w; messages := messages w; next_id := n;
     now := now w; db_faults := db_faults w; gw_faults := gw_faults w;
     emitted := emitted w; gw_calls := gw_calls w |}.

Definition set_db_faults (f : list bool) (w : World) : World :=
  {| instances := instances w; contacts := contacts w;
     conversations := conversations w; messages := messages w;
     next_id := next_id w; now := now w; db_faults := f;
     gw_faults := gw_faults w; emitted := emitted w; gw_calls := gw_calls w |}.

Definition set_gw_faults (f : list bool) (w : World) : World :=
  {| instances := instances w; contacts := contacts w;
     conversations := conversations w; messages := messages w;
     next_id := next_id w; now := now w; db_faults := db_faults w;
     gw_faults := f; emitted := emitted w; gw_calls := gw_calls w |}.

Definition set_emitted (l : list Event) (w : World) : World :=
  {| instances := instances w; contacts := contacts w;
     conversations := conversations w; messages := messages w;
     next_id := next_id w; now := now w; db_faults := db_faults w;
     gw_faults := gw_faults w; emitted := l; gw_calls := gw_calls w |}.

Definition set_gw_calls (l : list GatewayCall) (w : World) : World :=
  {| instances := instances w; contacts := contacts w;
     conversations := conversations w; messages := messages w;
     next_id := next_id w; now := now w; db_faults := db_faults w;
     gw_faults := gw_faults w; emitted := emitted w; gw_calls := l |}.

(** ** Database client *)

(** Every call reaches the database first: the head of the fault schedule
    says whether it rejects; an exhausted schedule never rejects. *)
Definition db_call : M unit :=
  fun w =>
    match db_faults w with
    | [] => (Ok tt, w)
    | true :: f => (Throw DbError, set_db_faults f w)
    | false :: f => (Ok tt, set_db_faults f w)
    end.

Definition current_time : M Z := fun w => (Ok (now w), w).

(** Unique keys of the migration's indexes. *)
Definition contact_key (instanceId : nat) (jid : string) (c : Contact) : bool :=
  Nat.eqb (c_instanceId c) instanceId && (c_remoteJid c =? jid).

Definition conversation_key (instanceId contactId : nat) (c : Conversation) : bool :=
  Nat.eqb (cv_instanceId c) instanceId && Nat.eqb (cv_contactId c) contactId.

Definition message_key (instanceId : nat) (messageId : string) (m : Message) : bool :=
  Nat.eqb (m_instanceId m) instanceId && (m_messageId m =? messageId).

Module prisma.

(** [prisma.instance.findUnique({ where: { name } })] *)
Definition instance_findUnique (name : string) : M (option Instance) :=
  db_call ;;
  fun w => (Ok (find (fun i => i_name i =? name) (instances w)), w).

(** [prisma.instance.findUnique({ where: { id } })], as the relation
    include of a conversation resolves it. *)
Definition instance_byId (id : nat) (w : World) : option Instance :=
  find (fun i => Nat.eqb (i_id i) id) (instances w).

(** [prisma.instance.update({ where: { id }, data })] *)
Definition instance_update (id : nat) (f : Instance -> Instance) : M unit :=
  db_call ;;
  fun w =>
    if existsb (fun i => Nat.eqb (i_id i) id) (instances w) then
      (Ok tt,
       set_instances
         (map (fun i => if Nat.eqb (i_id i) id then f i else i) (instances w)) w)
    else (Throw RecordNotFound, w).

(** [prisma.contact.findUnique({ where: { instanceId_remoteJid } })] *)
Definition contact_findUnique (instanceId : nat) (jid : string)
  : M (option Contact) :=
  db_call ;;
  fun w => (Ok (find (contact_key instanceId jid) (contacts w)), w).

(** [prisma.contact.findUnique({ where: { id } })] *)
Definition contact_findUnique_id (id : nat) : M (option Contact) :=
  db_call ;;
  fun w => (Ok (find (fun c => Nat.eqb (c_id c) id) (contacts w)), w).

(** [prisma.contact.create({ data })] *)
Definition contact_create (instanceId : nat) (jid : string)
  (push phone : option string) (isGroup : bool) : M Contact :=
  db_call ;;
  fun w =>
    if existsb (contact_key instanceId jid) (contacts w) then
      (Throw UniqueViolation, w)
    else
      let c := {| c_id := next_id w; c_remoteJid := jid; c_pushName := push;
                  c_phoneNumber := phone; c_isGroup := isGroup;
                  c_instanceId := instanceId |} in
      (Ok c, set_next_id (S (next_id w)) (set_contacts (contacts w ++ [c]) w)).

Definition with_pushName (p : option string) (c : Contact) : Contact :=
  {| c_id := c_id c; c_remoteJid := c_remoteJid c; c_pushName := p;
     c_phoneNumber := c_phoneNumber c; c_isGroup := c_isGroup c;
     c_instanceId := c_instanceId c |}.

(** [prisma.contact.update({ where: { id }, data: { pushName } })] *)
Definition contact_update_pushName (id : nat) (p : option string) : M Contact :=
  db_call ;;
  fun w =>
    match find (fun c => Nat.eqb (c_id c) id) (contacts w) with
    | Some c =>
        (Ok (with_pushName p c),
         set_contacts
           (map (fun c => if Nat.eqb (c_id c) id then with_pushName p c else c)
                (contacts w)) w)
    | None => (Throw RecordNotFound, w)
    end.

(** [prisma.conversation.findUnique({ where: { instanceId_contactId } })] *)
Definition conversation_findUnique (instanceId contactId : nat)
  : M (option Conversation) :=
  db_call ;;
  fun w => (Ok (find (conversation_key instanceId contactId) (conversations w)), w).

(** [prisma.conversation.create({ data: { instanceId, contactId, status } })];
    the other columns take the defaults of the schema. *)
Definition conversation_create (instanceId contactId : nat)
  (status : ConversationStatus) : M Conversation :=
  db_call ;;
  fun w =>
    if existsb (conversation_key instanceId contactId) (conversations w) then
      (Throw UniqueViolation, w)
    else
      let c := {| cv_id := next_id w; cv_status := status; cv_unreadCount := 0;
                  cv_lastMessageAt := None; cv_lastMessage := None;
                  cv_instanceId := instanceId; cv_contactId := contactId |} in
      (Ok c,
       set_next_id (S (next_id w)) (set_conversations (conversations w ++ [c]) w)).

(** [prisma.conversation.update({ where: { id }, data })]: the data object
    is the function it applies to the row. *)
Definition conversation_update (id : nat) (f : Conversation -> Conversation)
  : M Conversation :=
  db_call ;;
  fun w =>
    match find (fun c => Nat.eqb (cv_id c) id) (conversations w) with
    | Some c =>
        (Ok (f c),
         set_conversations
           (map (fun c => if Nat.eqb (cv_id c) id then f c else c)
                (conversations w)) w)
    | None => (Throw RecordNotFound, w)
    end.

(** [prisma.message.findUnique({ where: { instanceId_messageId } })] *)
Definition message_findUnique (instanceId : nat) (messageId : string)
  : M (option Message) :=
  db_call ;;
  fun w => (Ok (find (message_key instanceId messageId) (messages w)), w).

(** [prisma.message.create({ data })]: [data] carries every column but the
    identifier. *)
Definition message_create (data : nat -> Message) : M Message :=
  db_call ;;
  fun w =>
    let m := data (next_id w) in
    if existsb (message_key (m_instanceId m) (m_messageId m)) (messages w) then
      (Throw UniqueViolation, w)
    else
      (Ok m, set_next_id (S (next_id w)) (set_messages (messages w ++ [m]) w)).

Definition with_status (s : MessageStatus) (m : Message) : Message :=
  {| m_id := m_id m; m_messageId := m_messageId m; m_content := m_content m;
     m_type := m_type m; m_status := s; m_isFromMe := m_isFromMe m;
     m_timestamp := m_timestamp m; m_mediaUrl := m_mediaUrl m;
     m_mediaMimeType := m_mediaMimeType m; m_mediaFileName := m_mediaFileName m;
     m_quotedMessageId := m_quotedMessageId m; m_instanceId := m_instanceId m;
     m_contactId := m_contactId m; m_conversationId := m_conversationId m |}.

(** [prisma.message.update({ where: { id }, data: { status } })] *)
Definition message_update_status (id : nat) (s : MessageStatus) : M unit :=
  db_call ;;
  fun w =>
    if existsb (fun m => Nat.eqb (m_id m) id) (messages w) then
      (Ok tt,
       set_messages
         (map (fun m => if Nat.eqb (m_id m) id then with_status s m else m)
              (messages w)) w)
    else (Throw RecordNotFound, w).

(** [prisma.message.updateMany({ where, data: { status } })] *)
Definition message_updateMany_status (cond : Message -> bool)
  (s : MessageStatus) : M unit :=
  db_call ;;
  fun w =>
    (Ok tt,
     set_messages
       (map (fun m => if cond m then with_status s m else m) (messages w)) w).

End prisma.

(** [io.to(room).emit(name, payload)] and [io.emit(name, payload)]; the
    socket server is the one [initSocket] installed at start-up. *)
Definition emit (t : Topic) (name : string) (p : Payload) : M unit :=
  fun w =>
    (Ok tt,
     set_emitted (emitted w ++ [{| ev_topic := t; ev_name := name; ev_payload := p |}]) w).

(** ** Webhook controller *)

(** [messageData.message?.extendedTextMessage?.contextInfo?.stanzaId],
    kept when truthy. *)
Definition quoted_stanza (messageData : Item) : option string :=
  match message messageData with
  | Some m =>
      match extendedTextMessage m with
      | Some e =>
          match contextInfo e with
          | Some ci => Js.or_null (stanzaId ci)
          | None => None
          end
      | None => None
      end
  | None => None
  end.

(** The [updateData] object of the upsert handler: preview and time always;
    for a message that is not from the agent side the atomic increment and,
    when the conversation read earlier was RESOLVED, the reopening. *)
Definition upsert_updateData (lastMessage : string) (timestamp : Z)
  (fromMe : bool) (conversation : Conversation) (row : Conversation)
  : Conversation :=
  {| cv_id := cv_id row;
     cv_status :=
       if negb fromMe && ConversationStatus_eqb (cv_status conversation) RESOLVED
       then OPEN else cv_status row;
     cv_unreadCount :=
       if negb fromMe then cv_unreadCount row + 1 else cv_unreadCount row;
     cv_lastMessageAt := Some timestamp;
     cv_lastMessage := Some lastMessage;
     cv_instanceId := cv_instanceId row;
     cv_contactId := cv_contactId row |}.

(** "Find or create contact": the lookup by (instanceId, remoteJid), the
    creation on a miss, the backfill of a missing display name on a hit. *)
Definition findOrCreateContact (inst : Instance) (messageData : Item)
  (jid : string) : M Contact :=
  let isGroup := Js.endsWith "@g.us" jid in
  oc <- prisma.contact_findUnique (i_id inst) jid ;;
  match oc with
  | None =>
      let phoneNumber :=
        Js.replace "@g.us" "" (Js.replace "@s.whatsapp.net" "" jid) in
      prisma.contact_create (i_id inst) jid
        (Js.or_else (pushName messageData) (Some phoneNumber))
        (Some phoneNumber) isGroup
  | Some c =>
      if Js.truthy (pushName messageData) && negb (Js.truthy (c_pushName c))
      then prisma.contact_update_pushName (c_id c) (pushName messageData)
      else ret c
  end.

(** "Find or create conversation": the lookup by (instanceId, contactId),
    the creation with status OPEN on a miss. *)
Definition findOrCreateConversation (inst : Instance) (contact : Contact)
  : M Conversation :=
  ocv <- prisma.conversation_findUnique (i_id inst) (c_id contact) ;;
  match ocv with
  | None => prisma.conversation_create (i_id inst) (c_id contact) OPEN
  | Some cv => ret cv
  end.

(** [messageTimestamp ? new Date(messageTimestamp * 1000) : new Date()] *)
Definition message_time (messageData : Item) (today : Z) : Z :=
  match messageTimestamp messageData with
  | Some t => if Js.truthy_num (Some t) then (t * 1000)%Z else today
  | None => today
  end.

(** The [data] of [prisma.message.create] in the upsert handler. *)
Definition upsert_message (inst : Instance) (contact : Contact)
  (conv : Conversation) (messageData : Item) (k : Key) (timestamp : Z)
  (id : nat) : Message :=
  let n := getMessageContent messageData in
  {| m_id := id;
     m_messageId := key_id k;
     m_content := n_content n;
     m_type := n_type n;
     m_status := if fromMe k then SENT else DELIVERED;
     m_isFromMe := fromMe k;
     m_timestamp := timestamp;
     m_mediaUrl := n_mediaUrl n;
     m_mediaMimeType := n_mediaMimeType n;
     m_mediaFileName := n_mediaFileName n;
     m_quotedMessageId := quoted_stanza messageData;
     m_instanceId := i_id inst;
     m_contactId := c_id contact;
     m_conversationId := cv_id conv |}.

(** What the loop body does once the message is known to be new: "Create
    message", "Update conversation", "Emit socket events". *)
Definition storeAndFanOut (inst : Instance) (contact : Contact)
  (conv : Conversation) (messageData : Item) (k : Key) : M unit :=
  let n := getMessageContent messageData in
  today <- current_time ;;
  let timestamp := message_time messageData today in
  msg <- prisma.message_create
           (upsert_message inst contact conv messageData k timestamp) ;;
  let lastMessage := getLastMessagePreview (n_type n) (n_content n) in
  updatedConversation <-
    prisma.conversation_update (cv_id conv)
      (upsert_updateData lastMessage timestamp (fromMe k) conv) ;;
  emit (Room (cv_id conv)) "message:new" (PMessage msg) ;;
  emit Broadcast "message:new" (PNotification msg contact (cv_id conv)) ;;
  emit Broadcast "conversation:update" (PConversation updatedConversation).

(** The loop body from the instance on. *)
Definition upsertFor (inst : Instance) (messageData : Item) (k : Key) : M unit :=
  contact <- findOrCreateContact inst messageData (remoteJid k) ;;
  conv <- findOrCreateConversation inst contact ;;
  existingMessage <- prisma.message_findUnique (i_id inst) (key_id k) ;;
  match existingMessage with
  | Some _ => ret tt
  | None => storeAndFanOut inst contact conv messageData k
  end.

(** The [if (!key || !key.remoteJid) continue] and the "Skip status
    messages" guards. *)
Definition routable (k : Key) : bool :=
  negb (remoteJid k =? "") && negb (remoteJid k =? "status@broadcast").

(** The body of the [for] loop of [handleMessagesUpsert]; [continue] is
    [ret tt]. *)
Definition upsertItem (instanceName : string) (item : option Item) : M unit :=
  match item with
  | None => throw TypeError                     (* [messageData.key] *)
  | Some messageData =>
      match key messageData with
      | None => ret tt
      | Some k =>
          if routable k then
            oi <- prisma.instance_findUnique instanceName ;;
            match oi with
            | None => ret tt
            | Some inst => upsertFor inst messageData k
            end
          else ret tt
      end
  end.

Fixpoint handleMessagesUpsert (instanceName : string) (data : list (option Item))
  : M unit :=
  match data with
  | [] => ret tt
  | messageData :: rest =>
      upsertItem instanceName messageData ;;
      handleMessagesUpsert instanceName rest
  end.

Definition set_instance_status (s : InstanceStatus) (qr : option string)
  (i : Instance) : Instance :=
  {| i_id := i_id i; i_name := i_name i; i_apiKey := i_apiKey i;
     i_status := s; i_qrCode := qr |}.

Definition connection_status (st : option string) : InstanceStatus :=
  match st with
  | Some s =>
      if s =? "open" then CONNECTED
      else if s =? "connecting" then CONNECTING
      else DISCONNECTED
  | None => DISCONNECTED
  end.

Definition handleConnectionUpdate (instanceName : string) (data : option Item)
  : M unit :=
  oi <- prisma.instance_findUnique instanceName ;;
  match oi with
  | None => ret tt
  | Some inst =>
      match data with
      | None => throw TypeError                 (* [data.state] *)
      | Some d =>
          let status := connection_status (state d) in
          prisma.instance_update (i_id inst)
            (set_instance_status status
               (if InstanceStatus_eqb status CONNECTED then None
                else i_qrCode inst)) ;;
          emit Broadcast "instance:status"
               (PInstanceStatus (i_id inst) instanceName status)
      end
  end.

Definition handleQrCodeUpdate (instanceName : string) (data : option Item)
  : M unit :=
  oi <- prisma.instance_findUnique instanceName ;;
  match oi with
  | None => ret tt
  | Some inst =>
      match data with
      | None => throw TypeError                 (* [data.qrcode] *)
      | Some d =>
          match qrcode d with
          | Some q =>
              match base64 q with
              | Some b =>
                  if Js.truthy (Some b) then
                    prisma.instance_update (i_id inst)
                      (set_instance_status QRCODE (Some b)) ;;
                    emit Broadcast "instance:qrcode"
                         (PInstanceQrcode (i_id inst) instanceName b)
                  else ret tt
              | None => ret tt
              end
          | None => ret tt
          end
      end
  end.

(** The [switch] over the vendor's numeric status; [current] is the value
    [newStatus] starts from. *)
Definition vendor_status (current : MessageStatus) (code : Z) : MessageStatus :=
  if (code =? 2)%Z then SENT
  else if (code =? 3)%Z then DELIVERED
  else if (code =? 4)%Z then READ
  else current.

(** [update.update?.status], switched on only when truthy. *)
Definition newStatus_of (current : MessageStatus) (u : Item) : MessageStatus :=
  match update u with
  | Some up =>
      match update_status up with
      | Some code =>
          if Js.truthy_num (Some code) then vendor_status current code
          else current
      | None => current
      end
  | None => current
  end.

(** The body of the [for] loop of [handleMessagesUpdate]. *)
Definition updateItem (instanceName : string) (item : option Item) : M unit :=
  match item with
  | None => throw TypeError                     (* [update.key] *)
  | Some u =>
  match key u with
  | None => ret tt
  | Some k =>
  if key_id k =? "" then ret tt
  else
    oi <- prisma.instance_findUnique instanceName ;;
    match oi with
    | None => ret tt
    | Some inst =>
    om <- prisma.message_findUnique (i_id inst) (key_id k) ;;
    match om with
    | None => ret tt
    | Some msg =>
    let newStatus := newStatus_of (m_status msg) u in
    if negb (MessageStatus_eqb newStatus (m_status msg)) then
      prisma.message_update_status (m_id msg) newStatus ;;
      emit (Room (m_conversationId msg)) "message:update"
           (PMessageStatus (m_id msg) newStatus)
    else ret tt
    end
    end
  end
  end.

Fixpoint handleMessagesUpdate (instanceName : string) (data : list (option Item))
  : M unit :=
  match data with
  | [] => ret tt
  | u :: rest =>
      updateItem instanceName u ;;
      handleMessagesUpdate instanceName rest
  end.

(** HTTP responses. *)
Inductive Body :=
| Received                       (* [{ received: true }] *)
| ErrorBody (error : string)     (* [{ error }] *)
| MessageBodyJson (msg : string). (* [{ message }] *)

Record Response := {
  res_status : nat;
  res_body : Body;
}.

Definition normalizeEvent (event : string) : string :=
  Js.dots_to_underscores (Js.toUpperCase event).

(** The [switch] of the router. *)
Definition dispatch (normalizedEvent instanceName : string) (d : Data) : M unit :=
  if normalizedEvent =? "MESSAGES_UPSERT" then
    handleMessagesUpsert instanceName (as_array d)
  else if normalizedEvent =? "MESSAGES_UPDATE" then
    handleMessagesUpdate instanceName (as_array d)
  else if normalizedEvent =? "CONNECTION_UPDATE" then
    handleConnectionUpdate instanceName (as_object d)
  else if (normalizedEvent =? "QRCODE_UPDATED") || (normalizedEvent =? "QRCODE_UPDATE") then
    handleQrCodeUpdate instanceName (as_object d)
  else if (normalizedEvent =? "CONTACTS_UPSERT") || (normalizedEvent =? "CONTACTS_UPDATE") then
    ret tt
  else ret tt.

(** The [try] block of [handleWebhook], up to the response. *)
Definition webhook_try (payload : WebhookPayload) : M Response :=
  match event payload with
  | None => throw TypeError                     (* [event.toUpperCase()] *)
  | Some ev =>
      dispatch (normalizeEvent ev) (instance payload) (data payload) ;;
      ret {| res_status := 200; res_body := Received |}
  end.

Definition handleWebhook (payload : WebhookPayload) : M Response :=
  try_catch (webhook_try payload)
    (fun _ => ret {| res_status := 500;
                     res_body := ErrorBody "Webhook processing error" |}).

(** ** Message controller: [markAsRead] *)

Definition gateway_call (c : GatewayCall) : M unit :=
  fun w =>
    let w1 := set_gw_calls (gw_calls w ++ [c]) w in
    match gw_faults w with
    | [] => (Ok tt, w1)
    | true :: f => (Throw GatewayError, set_gw_faults f w1)
    | false :: f => (Ok tt, set_gw_faults f w1)
    end.

(** [orderBy: { timestamp: 'desc' }]: a stable insertion sort; rows of equal
    timestamp keep their table order. *)
Fixpoint insert_desc (m : Message) (l : list Message) : list Message :=
  match l with
  | [] => [m]
  | x :: r =>
      if (m_timestamp x <=? m_timestamp m)%Z then m :: l
      else x :: insert_desc m r
  end.

Fixpoint orderBy_timestamp_desc (l : list Message) : list Message :=
  match l with
  | [] => []
  | m :: r => insert_desc m (orderBy_timestamp_desc r)
  end.

(** [where: { conversationId, isFromMe: false, status: { not: 'READ' } }] *)
Definition unread_inbound (conversationId : nat) (m : Message) : bool :=
  Nat.eqb (m_conversationId m) conversationId
  && negb (m_isFromMe m)
  && negb (MessageStatus_eqb (m_status m) READ).

(** The [messages] relation of the include: filtered, ordered, [take: 10]. *)
Definition included_messages (conversationId : nat) (w : World) : list Message :=
  firstn 10
    (orderBy_timestamp_desc (filter (unread_inbound conversationId) (messages w))).

(** [prisma.conversation.findUnique({ where: { id }, include })] *)
Definition conversation_with_includes (conversationId : nat)
  : M (option (Conversation * option Instance * list Message)) :=
  db_call ;;
  fun w =>
    (Ok match find (fun c => Nat.eqb (cv_id c) conversationId) (conversations w) with
        | Some c =>
            Some (c, prisma.instance_byId (cv_instanceId c) w,
                  included_messages conversationId w)
        | None => None
        end, w).

Definition read_key (contact : Contact) (m : Message) : ReadKey :=
  {| rk_remoteJid := c_remoteJid contact; rk_fromMe := false;
     rk_id := m_messageId m |}.

Definition with_unreadCount (n : nat) (c : Conversation) : Conversation :=
  {| cv_id := cv_id c; cv_status := cv_status c; cv_unreadCount := n;
     cv_lastMessageAt := cv_lastMessageAt c; cv_lastMessage := cv_lastMessage c;
     cv_instanceId := cv_instanceId c; cv_contactId := cv_contactId c |}.

(** The inner [try] of [markAsRead]: the read receipt for the gateway. *)
Definition forward_read_receipt (conv : Conversation) (inst : Instance)
  (msgs : list Message) : M unit :=
  try_catch
    (oc <- prisma.contact_findUnique_id (cv_contactId conv) ;;
     match oc with
     | Some contact =>
         gateway_call
           (MarkMessageAsRead (i_name inst) (map (read_key contact) msgs)
                              (Js.or_else (i_apiKey inst) None))
     | None => ret tt
     end)
    (fun _ => ret tt).

Definition markAsRead_try (conversationId : nat) : M Response :=
  o <- conversation_with_includes conversationId ;;
  match o with
  | None =>
      ret {| res_status := 404; res_body := ErrorBody "Conversa não encontrada" |}
  | Some (conv, oinst, msgs) =>
      match oinst with
      | Some inst =>
          if InstanceStatus_eqb (i_status inst) CONNECTED
             && Nat.ltb 0 (List.length msgs)
          then forward_read_receipt conv inst msgs
          else ret tt
      | None => ret tt
      end ;;
      prisma.message_updateMany_status (unread_inbound conversationId) READ ;;
      prisma.conversation_update conversationId (with_unreadCount 0) ;;
      ret {| res_status := 200; res_body := MessageBodyJson "Marcado como lido" |}
  end.

Definition markAsRead (conversationId : nat) : M Response :=
  try_catch (markAsRead_try conversationId)
    (fun _ => ret {| res_status := 500;
                     res_body := ErrorBody "Erro ao marcar como lido" |}).

(** * Vocabulary of the statements *)

(** ** Worlds and frames *)

(** A world whose database never rejects. *)
Definition db_reliable (w : World) : Prop := db_faults w = [].

(** What no block of the upsert handler touches. *)
Definition frame (w w1 : World) : Prop :=
  instances w1 = instances w /\ db_faults w1 = db_faults w /\
  gw_faults w1 = gw_faults w /\ now w1 = now w /\ gw_calls w1 = gw_calls w.

(** The preview and the time the upsert handler writes for an item. *)
Definition preview_of (md : Item) : string :=
  getLastMessagePreview (n_type (getMessageContent md))
                        (n_content (getMessageContent md)).

(** The three emissions of one stored message. *)
Definition fan_out (m : Message) (contact : Contact) (upd : Conversation)
  : list Event :=
  [ {| ev_topic := Room (m_conversationId m); ev_name := "message:new";
       ev_payload := PMessage m |};
    {| ev_topic := Broadcast; ev_name := "message:new";
       ev_payload := PNotification m contact (m_conversationId m) |};
    {| ev_topic := Broadcast; ev_name := "conversation:update";
       ev_payload := PConversation upd |} ].

(** ** Status changes, batches, responses *)

(** The event of one status change. *)
Definition status_delta (msg : Message) (s : MessageStatus) : Event :=
  {| ev_topic := Room (m_conversationId msg); ev_name := "message:update";
     ev_payload := PMessageStatus (m_id msg) s |}.

(** The world after the status of [msg] was rewritten and announced. *)
Definition status_applied (msg : Message) (s : MessageStatus) (w : World) : World :=
  set_emitted (emitted w ++ [status_delta msg s])
    (set_messages
       (map (fun m => if Nat.eqb (m_id m) (m_id msg) then prisma.with_status s m
                      else m) (messages w)) w).

(** No element of the batch is [null] or [undefined]. *)
Definition no_null_item (items : list (option Item)) : Prop :=
  Forall (fun i => i <> None) items.

(** [data] holds no [null]: none of its elements when it is an array, not
    itself otherwise. *)
Definition no_null (d : Data) : Prop :=
  match d with
  | DArray l => no_null_item l
  | DValue v => v <> None
  end.

Definition received_200 : Response := {| res_status := 200; res_body := Received |}.



(** ** Counting emissions and rows *)




(** ** The index of conversations *)

Definition conv_pair (c : Conversation) : nat * nat :=
  (cv_instanceId c, cv_contactId c).

(** The unique index [conversations_instanceId_contactId_key]. *)
Definition conv_unique (w : World) : Prop :=
  NoDup (map conv_pair (conversations w)).

(** A computation that keeps the index, whatever it returns or throws. *)
Definition preserves {A} (m : M A) : Prop :=
  forall w, conv_unique w -> conv_unique (snd (m w)).

(** ** Read receipts and unread counts *)


(** The receipt the inner [try] sends, when the contact is there. *)
Definition receipt_calls (conv : Conversation) (inst : Instance)
  (msgs : list Message) (w : World) : list GatewayCall :=
  match find (fun c => Nat.eqb (c_id c) (cv_contactId conv)) (contacts w) with
  | Some contact =>
      [MarkMessageAsRead (i_name inst) (map (read_key contact) msgs)
                         (Js.or_else (i_apiKey inst) None)]
  | None => []
  end.

Definition marked_as_read_200 : Response :=
  {| res_status := 200; res_body := MessageBodyJson "Marcado como lido" |}.

(** The calls [markAsRead] makes to the gateway for a conversation. *)
Definition receipts (id : nat) (cv : Conversation) (w : World) : list GatewayCall :=
  match prisma.instance_byId (cv_instanceId cv) w with
  | Some inst =>
      if InstanceStatus_eqb (i_status inst) CONNECTED
         && Nat.ltb 0 (List.length (included_messages id w))
      then receipt_calls cv inst (included_messages id w) w
      else []
  | None => []
  end.




(** ** Concrete payloads and worlds *)

Module Sample.

Definition shop1 : Instance :=
  {| i_id := 1; i_name := "shop1"; i_apiKey := None; i_status := CONNECTED;
     i_qrCode := None |}.

(** A store that knows the instance and nothing else. *)
Definition w0 : World :=
  {| instances := [shop1]; contacts := []; conversations := [];
     messages := []; next_id := 2; now := 5000; db_faults := [];
     gw_faults := []; emitted := []; gw_calls := [] |}.

Definition inbound (jid id : string) (body : MessageBody) : Item :=
  {| key := Some {| remoteJid := jid; fromMe := false; key_id := id |};
     pushName := Some "Ana"; message := Some body; messageTimestamp := None;
     update := None; state := None; qrcode := None |}.

Definition text_body (s : string) : MessageBody :=
  {| conversation := Some s; extendedTextMessage := None; imageMessage := None;
     videoMessage := None; audioMessage := None; documentMessage := None;
     stickerMessage := None; locationMessage := None; contactMessage := None;
     reactionMessage := None |}.

Definition ana : string := "5511999@s.whatsapp.net".

Definition msg1 : Item := inbound ana "MSG1" (text_body "Oi").
Definition msg2 : Item := inbound ana "MSG2" (text_body "Tudo bem?").

Definition picture : ImageMessage :=
  {| image_url := Some "https://mmg.example/p.jpg";
     image_mimetype := Some "image/jpeg"; image_caption := Some "legenda" |}.

(** A message object with both [conversation] and [imageMessage]. *)
Definition text_and_image : MessageBody :=
  {| conversation := Some "Oi"; extendedTextMessage := None;
     imageMessage := Some picture; videoMessage := None; audioMessage := None;
     documentMessage := None; stickerMessage := None; locationMessage := None;
     contactMessage := None; reactionMessage := None |}.

Definition status_item (id : string) (code : Z) : Item :=
  {| key := Some {| remoteJid := ""; fromMe := false; key_id := id |};
     pushName := None; message := None; messageTimestamp := None;
     update := Some {| update_status := Some code |}; state := None;
     qrcode := None |}.

Definition upsert_of (items : list (option Item)) : WebhookPayload :=
  {| event := Some "messages.upsert"; instance := "shop1"; data := DArray items |}.

Definition update_of (it : Item) : WebhookPayload :=
  {| event := Some "MESSAGES_UPDATE"; instance := "shop1"; data := DValue (Some it) |}.

Definition after {A} (m : M A) (w : World) : World := snd (m w).

(** MSG1 delivered once. *)
Definition w1 : World := after (handleWebhook (upsert_of [Some msg1])) w0.

(** MSG1 delivered, then reported READ (vendor code 4). *)
Definition w_read : World :=
  after (handleWebhook (update_of (status_item "MSG1" 4))) w1.

End Sample.


Module Burst.

Definition timed (id : string) (t : Z) : option Item :=
  Some {| key := Some {| remoteJid := Sample.ana; fromMe := false; key_id := id |};
          pushName := Some "Ana"; message := Some (Sample.text_body id);
          messageTimestamp := Some t; update := None; state := None;
          qrcode := None |}.

(** Eleven inbound messages of one contact, in no particular order. *)
Definition items : list (option Item) :=
  [ timed "M03" 3; timed "M01" 1; timed "M11" 11; timed "M07" 7;
    timed "M02" 2; timed "M09" 9; timed "M05" 5; timed "M10" 10;
    timed "M04" 4; timed "M08" 8; timed "M06" 6 ].

Definition w11 : World :=
  Sample.after (handleMessagesUpsert "shop1" items) Sample.w0.

Definition contact : Contact :=
  {| c_id := 2; c_remoteJid := Sample.ana; c_pushName := Some "Ana";
     c_phoneNumber := Some "5511999"; c_isGroup := false; c_instanceId := 1 |}.

Definition conv : Conversation :=
  {| cv_id := 3; cv_status := OPEN; cv_unreadCount := 11;
     cv_lastMessageAt := Some 6000%Z; cv_lastMessage := Some "M06";
     cv_instanceId := 1; cv_contactId := 2 |}.

End Burst.

(** * Instance controller

    [createInstance], [getConnectionState] and [deleteInstance].  What the
    gateway answers is an argument of the handler; whether the request
    rejects is read off the gateway's fault schedule.  The requests
    themselves (instance name, webhook settings) are not recorded:
    [gw_calls] keeps the read receipts. *)

(** An awaited gateway request with its answer. *)
Definition gateway_answer {A} (answer : A) : M A :=
  fun w =>
    match gw_faults w with
    | [] => (Ok answer, w)
    | true :: f => (Throw GatewayError, set_gw_faults f w)
    | false :: f => (Ok answer, set_gw_faults f w)
    end.

(** [prisma.instance.findUnique({ where: { id } })] *)
Definition instance_findUnique_id (id : nat) : M (option Instance) :=
  db_call ;;
  fun w => (Ok (find (fun i => Nat.eqb (i_id i) id) (instances w)), w).

(** [prisma.instance.create({ data })], under the unique index on [name]. *)
Definition instance_create (name : string) (apiKey qrCode : option string)
  (status : InstanceStatus) : M Instance :=
  db_call ;;
  fun w =>
    if existsb (fun i => i_name i =? name) (instances w) then
      (Throw UniqueViolation, w)
    else
      let i := {| i_id := next_id w; i_name := name; i_apiKey := apiKey;
                  i_status := status; i_qrCode := qrCode |} in
      (Ok i, set_next_id (S (next_id w)) (set_instances (instances w ++ [i]) w)).

(** The rows an [ON DELETE CASCADE] of the migration removes with an
    instance: its contacts; the conversations of the instance or of a removed
    contact; the messages of the instance, of a removed contact or of a
    removed conversation. *)
Definition contact_goes (id : nat) (c : Contact) : bool :=
  Nat.eqb (c_instanceId c) id.

Definition conversation_goes (id : nat) (w : World) (c : Conversation) : bool :=
  Nat.eqb (cv_instanceId c) id
  || existsb (fun ct => contact_goes id ct && Nat.eqb (c_id ct) (cv_contactId c))
             (contacts w).

Definition message_goes (id : nat) (w : World) (m : Message) : bool :=
  Nat.eqb (m_instanceId m) id
  || existsb (fun ct => contact_goes id ct && Nat.eqb (c_id ct) (m_contactId m))
             (contacts w)
  || existsb (fun cv => conversation_goes id w cv
                        && Nat.eqb (cv_id cv) (m_conversationId m))
             (conversations w).

Definition cascade (id : nat) (w : World) : World :=
  set_instances (filter (fun i => negb (Nat.eqb (i_id i) id)) (instances w))
    (set_contacts (filter (fun c => negb (contact_goes id c)) (contacts w))
       (set_conversations
          (filter (fun c => negb (conversation_goes id w c)) (conversations w))
          (set_messages
             (filter (fun m => negb (message_goes id w m)) (messages w)) w))).

(** [prisma.instance.delete({ where: { id } })] *)
Definition instance_delete (id : nat) : M unit :=
  db_call ;;
  fun w =>
    if existsb (fun i => Nat.eqb (i_id i) id) (instances w) then
      (Ok tt, cascade id w)
    else (Throw RecordNotFound, w).

(** What the gateway answers to [createInstance]. *)
Record CreateAnswer := {
  answer_hash : option string;
  answer_apikey : option string;
  answer_qrcode : option QrCode;
}.

(** What the gateway answers to [getConnectionState]:
    [response?.instance?.state] and [response?.state]. *)
Record StateAnswer := {
  answer_instance_state : option string;
  answer_state : option string;
}.

(** The JSON replies of the instance controller. *)
Inductive InstanceReply :=
| ReplyCreated (inst : Instance) (qr : option QrCode)   (* 201 *)
| ReplyState (state : string) (status : InstanceStatus)  (* 200 *)
| ReplyMessage (msg : string)                            (* 200 *)
| ReplyError (code : nat) (error : string).

(** [evolutionResponse.qrcode?.base64] *)
Definition answer_base64 (a : CreateAnswer) : option string :=
  match answer_qrcode a with
  | Some q => base64 q
  | None => None
  end.

(** The body is the parsed [{ name }]; the schema refuses an empty name. *)
Definition createInstance_try (name : string) (answer : option CreateAnswer)
  : M InstanceReply :=
  if name =? "" then ret (ReplyError 400 "Nome da instância é obrigatório")
  else
    existingInstance <- prisma.instance_findUnique name ;;
    match existingInstance with
    | Some _ => ret (ReplyError 400 "Já existe uma instância com esse nome")
    | None =>
        evolutionResponse <- gateway_answer answer ;;
        match evolutionResponse with
        | None => throw TypeError             (* [evolutionResponse.hash] *)
        | Some r =>
            inst <- instance_create name
                      (Js.or_else (answer_hash r) (answer_apikey r))
                      (answer_base64 r)
                      (match answer_qrcode r with
                       | Some _ => QRCODE
                       | None => DISCONNECTED
                       end) ;;
            ret (ReplyCreated inst (answer_qrcode r))
        end
    end.

Definition createInstance (name : string) (answer : option CreateAnswer)
  : M InstanceReply :=
  try_catch (createInstance_try name answer)
    (fun _ => ret (ReplyError 500 "Erro ao criar instância")).

(** [response?.instance?.state || response?.state || 'close'] *)
Definition polled_state (response : option StateAnswer) : string :=
  match response with
  | Some r =>
      match Js.or_else (Js.or_else (answer_instance_state r) (answer_state r))
                       (Some "close") with
      | Some s => s
      | None => "close"
      end
  | None => "close"
  end.

(** The [if]/[else if] of the polling handler. *)
Definition polled_status (state : string) : InstanceStatus :=
  if state =? "open" then CONNECTED
  else if state =? "connecting" then CONNECTING
  else DISCONNECTED.

Definition getConnectionState_try (id : nat) (answer : option StateAnswer)
  : M InstanceReply :=
  oi <- instance_findUnique_id id ;;
  match oi with
  | None => ret (ReplyError 404 "Instância não encontrada")
  | Some inst =>
      response <- gateway_answer answer ;;
      let state := polled_state response in
      let status := polled_status state in
      (if negb (InstanceStatus_eqb (i_status inst) status) then
         prisma.instance_update id
           (set_instance_status status
              (if InstanceStatus_eqb status CONNECTED then None
               else i_qrCode inst))
       else ret tt) ;;
      ret (ReplyState state status)
  end.

Definition getConnectionState (id : nat) (answer : option StateAnswer)
  : M InstanceReply :=
  try_catch (getConnectionState_try id answer)
    (fun _ => ret (ReplyError 500 "Erro ao verificar status da conexão")).

Definition deleteInstance_try (id : nat) : M InstanceReply :=
  oi <- instance_findUnique_id id ;;
  match oi with
  | None => ret (ReplyError 404 "Instância não encontrada")
  | Some inst =>
      try_catch (gateway_answer tt) (fun _ => ret tt) ;;
      instance_delete id ;;
      ret (ReplyMessage "Instância removida com sucesso")
  end.

Definition deleteInstance (id : nat) : M InstanceReply :=
  try_catch (deleteInstance_try id)
    (fun _ => ret (ReplyError 500 "Erro ao remover instância")).

(** * Vocabulary of the further properties *)

(** A handler whose every run relates the world before to the world after. *)
Definition respects (R : World -> World -> Prop) {A} (m : M A) : Prop :=
  forall w, R w (snd (m w)).

(** The unique indexes of contacts, messages and instance names. *)
Definition contact_pair (c : Contact) : nat * string :=
  (c_instanceId c, c_remoteJid c).

Definition message_pair (m : Message) : nat * string :=
  (m_instanceId m, m_messageId m).

Definition contact_unique (w : World) : Prop :=
  NoDup (map contact_pair (contacts w)).

Definition message_unique (w : World) : Prop :=
  NoDup (map message_pair (messages w)).

Definition instance_names_unique (w : World) : Prop :=
  NoDup (map i_name (instances w)).

(** Each index that held before holds after. *)
Definition keeps_indexes (w w' : World) : Prop :=
  (contact_unique w -> contact_unique w') /\
  (message_unique w -> message_unique w') /\
  (instance_names_unique w -> instance_names_unique w').

(** The events of the real-time channel: topic, name and kind of payload. *)
Definition channel_event (e : Event) : bool :=
  match ev_topic e, ev_payload e with
  | Room _, PMessage _ => ev_name e =? "message:new"
  | Broadcast, PNotification _ _ _ => ev_name e =? "message:new"
  | Broadcast, PConversation _ => ev_name e =? "conversation:update"
  | Room _, PMessageStatus _ _ => ev_name e =? "message:update"
  | Broadcast, PInstanceStatus _ _ _ => ev_name e =? "instance:status"
  | Broadcast, PInstanceQrcode _ _ _ => ev_name e =? "instance:qrcode"
  | _, _ => false
  end.

(** The emissions only grow, by events of the channel. *)
Definition emits_channel_events (w w' : World) : Prop :=
  exists es, emitted w' = (emitted w ++ es)%list /\ forallb channel_event es = true.

(** A message with its status blanked. *)
Definition without_status (m : Message) : Message := prisma.with_status PENDING m.

(** Nothing changed but the status of messages and the emissions. *)
Definition only_statuses (w w' : World) : Prop :=
  instances w' = instances w /\ contacts w' = contacts w /\
  conversations w' = conversations w /\ gw_calls w' = gw_calls w /\
  map without_status (messages w') = map without_status (messages w).

(** The gateway was not called and its schedule not consumed. *)
Definition gateway_untouched (w w' : World) : Prop :=
  gw_calls w' = gw_calls w /\ gw_faults w' = gw_faults w.

(** The types [getMediaFile] serves as media. *)
Definition is_media_type (t : MessageType) : bool :=
  match t with
  | IMAGE | VIDEO | AUDIO | DOCUMENT | STICKER => true
  | _ => false
  end.

(** The event of a connection update and the one of a pairing code. *)
Definition status_event (inst : Instance) (name : string) (s : InstanceStatus)
  : Event :=
  {| ev_topic := Broadcast; ev_name := "instance:status";
     ev_payload := PInstanceStatus (i_id inst) name s |}.

Definition qrcode_event (inst : Instance) (name b : string) : Event :=
  {| ev_topic := Broadcast; ev_name := "instance:qrcode";
     ev_payload := PInstanceQrcode (i_id inst) name b |}.

(** The instances after the rows of one identifier were rewritten. *)
Definition instances_with (id : nat) (f : Instance -> Instance) (w : World)
  : list Instance :=
  map (fun i => if Nat.eqb (i_id i) id then f i else i) (instances w).

(** A [connection.update] and a [qrcode.updated] item. *)
Definition connection_item (s : string) : Item :=
  {| key := None; pushName := None; message := None; messageTimestamp := None;
     update := None; state := Some s; qrcode := None |}.

Definition qrcode_item (b : string) : Item :=
  {| key := None; pushName := None; message := None; messageTimestamp := None;
     update := None; state := None; qrcode := Some {| base64 := Some b |} |}.


(** One character of [normalizeEvent]. *)
Definition normalize_char (c : ascii) : ascii :=
  let u := Js.upper_ascii c in
  if Ascii.eqb u "."%char then "_"%char else u.

(** The contact the upsert handler creates for a jid on a lookup miss. *)
Definition new_contact (inst : Instance) (md : Item) (jid : string) (id : nat)
  : Contact :=
  let phoneNumber := Js.replace "@g.us" "" (Js.replace "@s.whatsapp.net" "" jid) in
  {| c_id := id; c_remoteJid := jid;
     c_pushName := Js.or_else (pushName md) (Some phoneNumber);
     c_phoneNumber := Some phoneNumber;
     c_isGroup := Js.endsWith "@g.us" jid;
     c_instanceId := i_id inst |}.

(** A voice note: a payload with an audio variant and nothing else. *)
Definition voice_note : Item :=
  {| key := Some {| remoteJid := Sample.ana; fromMe := false; key_id := "A1" |};
     pushName := None;
     message := Some {| conversation := None; extendedTextMessage := None;
                        imageMessage := None; videoMessage := None;
                        audioMessage := Some {| audio_url := Some "https://mmg.example/a.ogg";
                                                audio_mimetype := Some "audio/ogg" |};
                        documentMessage := None; stickerMessage := None;
                        locationMessage := None; contactMessage := None;
                        reactionMessage := None |};
     messageTimestamp := None; update := None; state := None; qrcode := None |}.

(** The world after the rows of an instance were rewritten and an event
    went out. *)
Definition instance_written (inst : Instance) (f : Instance -> Instance)
  (e : Event) (w : World) : World :=
  set_emitted (emitted w ++ [e]) (set_instances (instances_with (i_id inst) f w) w).

(** The contacts table after the rows of one identifier took a push name. *)
Definition contacts_named (id : nat) (p : option string) (w : World)
  : list Contact :=
  map (fun c => if Nat.eqb (c_id c) id then prisma.with_pushName p c else c)
      (contacts w).

(** [messageData.pushName && !contact.pushName] *)
Definition backfills (md : Item) (c : Contact) : bool :=
  Js.truthy (pushName md) && negb (Js.truthy (c_pushName c)).

(** The reply of [markAsRead] for a conversation that is not there. *)
Definition not_found_404 : Response :=
  {| res_status := 404; res_body := ErrorBody "Conversa não encontrada" |}.

(** A gateway that accepts the next request. *)
Definition gateway_accepts (w : World) : Prop :=
  gw_faults w = [] \/ exists f, gw_faults w = false :: f.

(** The world once the gateway answered. *)
Definition answered (w : World) : World :=
  match gw_faults w with
  | [] => w
  | _ :: f => set_gw_faults f w
  end.

(** The instance [createInstance] stores for a name and an answer. *)
Definition created_instance (name : string) (r : CreateAnswer) (id : nat)
  : Instance :=
  {| i_id := id; i_name := name;
     i_apiKey := Js.or_else (answer_hash r) (answer_apikey r);
     i_status := match answer_qrcode r with Some _ => QRCODE | None => DISCONNECTED end;
     i_qrCode := answer_base64 r |}.

(** Every unique index that held before holds after. *)
Definition keeps_all_indexes (w w' : World) : Prop :=
  keeps_indexes w w' /\ (conv_unique w -> conv_unique w').


(** * Properties *)

(** ** The scenarios of the specification, run *)

Example normalizeEvent_dotted : normalizeEvent "messages.upsert" = "MESSAGES_UPSERT".
Proof. reflexivity. Qed.

Example replace_first_only :
  Js.replace "@g.us" "" "a@g.usb@g.us" = "ab@g.us" /\
  Js.replace "@g.us" "" (Js.replace "@s.whatsapp.net" "" Sample.ana) = "5511999" /\
  Js.endsWith "@g.us" "12036@g.us" = true /\
  Js.endsWith "@g.us" Sample.ana = false.
Proof. repeat split. Qed.

(** The first delivery of MSG1 creates the contact (phone 5511999, name
    Ana), the conversation (OPEN, one unread) and the message (TEXT, "Oi",
    DELIVERED), and fans the message out. *)
Example scenario_first_delivery :
  contacts Sample.w1 =
    [ {| c_id := 2; c_remoteJid := Sample.ana; c_pushName := Some "Ana";
         c_phoneNumber := Some "5511999"; c_isGroup := false;
         c_instanceId := 1 |} ] /\
  map (fun c => (cv_status c, cv_unreadCount c, cv_lastMessage c))
      (conversations Sample.w1) = [ (OPEN, 1, Some "Oi") ] /\
  map (fun m => (m_messageId m, m_type m, m_content m, m_status m))
      (messages Sample.w1) = [ ("MSG1", TEXT, Some (Raw "Oi"), DELIVERED) ] /\
  map (fun e => (ev_topic e, ev_name e)) (emitted Sample.w1) =
    [ (Room 3, "message:new"); (Broadcast, "message:new");
      (Broadcast, "conversation:update") ].
Proof. vm_compute. repeat split. Qed.

(** Vendor code 4 for MSG1 stores READ and emits one [message:update]. *)
Example scenario_read_update :
  map m_status (messages Sample.w_read) = [READ] /\
  emitted Sample.w_read =
    (emitted Sample.w1 ++
     [ {| ev_topic := Room 3; ev_name := "message:update";
          ev_payload := PMessageStatus 4 READ |} ])%list.
Proof. vm_compute. repeat split. Qed.

(** ** Lists as tables *)

Section Tables.
Context {A : Type}.
Implicit Types (p : A -> bool) (l : list A).

Lemma find_app p l1 l2 :
  find p (l1 ++ l2) =
  match find p l1 with Some x => Some x | None => find p l2 end.
Proof.
  induction l1 as [|a l1 IH]; simpl; [reflexivity|].
  destruct (p a); [reflexivity | exact IH].
Qed.

Lemma find_map_keep p (f : A -> A) l :
  (forall x, p (f x) = p x) ->
  find p (map f l) = option_map f (find p l).
Proof.
  intros Hp. induction l as [|a l IH]; simpl; [reflexivity|].
  rewrite Hp. destruct (p a); [reflexivity | exact IH].
Qed.

Lemma find_existsb p l :
  existsb p l = match find p l with Some _ => true | None => false end.
Proof.
  induction l as [|a l IH]; simpl; [reflexivity|].
  destruct (p a); [reflexivity | exact IH].
Qed.

Lemma find_none_existsb p l : find p l = None -> existsb p l = false.
Proof. intros H. rewrite find_existsb, H. reflexivity. Qed.

Lemma find_some_existsb p l x : find p l = Some x -> existsb p l = true.
Proof. intros H. rewrite find_existsb, H. reflexivity. Qed.

Lemma existsb_map_keep p (f : A -> A) l :
  (forall x, p (f x) = p x) -> existsb p (map f l) = existsb p l.
Proof.
  intros Hp. induction l as [|a l IH]; simpl; [reflexivity|].
  rewrite Hp, IH. reflexivity.
Qed.

Lemma filter_map_keep p (f : A -> A) l :
  (forall x, p (f x) = p x) -> filter p (map f l) = map f (filter p l).
Proof.
  intros Hp. induction l as [|a l IH]; simpl; [reflexivity|].
  rewrite Hp. destruct (p a); simpl; rewrite IH; reflexivity.
Qed.

(** A row found through one predicate is found through any other it
    satisfies. *)
Lemma find_some_other p q l x :
  find p l = Some x -> q x = true -> find q l <> None.
Proof.
  intros H Hq. apply find_some in H as [Hin _].
  destruct (find q l) eqn:E; [discriminate|].
  exfalso. pose proof (find_none _ _ E _ Hin) as Hn. congruence.
Qed.
End Tables.

(** ** Running the monad *)

Lemma run_bind {A B} (m : M A) (k : A -> M B) w a w1 :
  m w = (Ok a, w1) -> bind m k w = k a w1.
Proof. intros H. unfold bind. rewrite H. reflexivity. Qed.

Lemma run_bind_throw {A B} (m : M A) (k : A -> M B) w e w1 :
  m w = (Throw e, w1) -> bind m k w = (Throw e, w1).
Proof. intros H. unfold bind. rewrite H. reflexivity. Qed.

Lemma db_call_reliable w : db_reliable w -> db_call w = (Ok tt, w).
Proof. unfold db_reliable, db_call. intros ->. reflexivity. Qed.

(** The primitives on a reliable database. *)
Section Reliable.
Variable w : World.
Hypothesis Hw : db_reliable w.

Lemma instance_findUnique_run name :
  prisma.instance_findUnique name w =
  (Ok (find (fun i => i_name i =? name) (instances w)), w).
Proof.
  unfold prisma.instance_findUnique.
  rewrite (run_bind _ _ _ _ _ (db_call_reliable w Hw)). reflexivity.
Qed.

Lemma contact_findUnique_run i jid :
  prisma.contact_findUnique i jid w =
  (Ok (find (contact_key i jid) (contacts w)), w).
Proof.
  unfold prisma.contact_findUnique.
  rewrite (run_bind _ _ _ _ _ (db_call_reliable w Hw)). reflexivity.
Qed.

Lemma contact_findUnique_id_run id :
  prisma.contact_findUnique_id id w =
  (Ok (find (fun c => Nat.eqb (c_id c) id) (contacts w)), w).
Proof.
  unfold prisma.contact_findUnique_id.
  rewrite (run_bind _ _ _ _ _ (db_call_reliable w Hw)). reflexivity.
Qed.

Lemma conversation_findUnique_run i c :
  prisma.conversation_findUnique i c w =
  (Ok (find (conversation_key i c) (conversations w)), w).
Proof.
  unfold prisma.conversation_findUnique.
  rewrite (run_bind _ _ _ _ _ (db_call_reliable w Hw)). reflexivity.
Qed.

Lemma message_findUnique_run i mid :
  prisma.message_findUnique i mid w =
  (Ok (find (message_key i mid) (messages w)), w).
Proof.
  unfold prisma.message_findUnique.
  rewrite (run_bind _ _ _ _ _ (db_call_reliable w Hw)). reflexivity.
Qed.

Lemma contact_create_run i jid push phone g :
  find (contact_key i jid) (contacts w) = None ->
  prisma.contact_create i jid push phone g w =
  (let c := {| c_id := next_id w; c_remoteJid := jid; c_pushName := push;
               c_phoneNumber := phone; c_isGroup := g; c_instanceId := i |} in
   (Ok c, set_next_id (S (next_id w)) (set_contacts (contacts w ++ [c]) w))).
Proof.
  intros Hn. unfold prisma.contact_create.
  rewrite (run_bind _ _ _ _ _ (db_call_reliable w Hw)).
  rewrite (find_none_existsb _ _ Hn). reflexivity.
Qed.

Lemma contact_update_pushName_run id p c :
  find (fun c => Nat.eqb (c_id c) id) (contacts w) = Some c ->
  prisma.contact_update_pushName id p w =
  (Ok (prisma.with_pushName p c),
   set_contacts
     (map (fun c => if Nat.eqb (c_id c) id then prisma.with_pushName p c else c)
          (contacts w)) w).
Proof.
  intros Hf. unfold prisma.contact_update_pushName.
  rewrite (run_bind _ _ _ _ _ (db_call_reliable w Hw)).
  rewrite Hf. reflexivity.
Qed.

Lemma conversation_create_run i c st :
  find (conversation_key i c) (conversations w) = None ->
  prisma.conversation_create i c st w =
  (let cv := {| cv_id := next_id w; cv_status := st; cv_unreadCount := 0;
                cv_lastMessageAt := None; cv_lastMessage := None;
                cv_instanceId := i; cv_contactId := c |} in
   (Ok cv,
    set_next_id (S (next_id w)) (set_conversations (conversations w ++ [cv]) w))).
Proof.
  intros Hn. unfold prisma.conversation_create.
  rewrite (run_bind _ _ _ _ _ (db_call_reliable w Hw)).
  rewrite (find_none_existsb _ _ Hn). reflexivity.
Qed.

Lemma conversation_update_run id f c :
  find (fun c => Nat.eqb (cv_id c) id) (conversations w) = Some c ->
  prisma.conversation_update id f w =
  (Ok (f c),
   set_conversations
     (map (fun c => if Nat.eqb (cv_id c) id then f c else c) (conversations w))
     w).
Proof.
  intros Hf. unfold prisma.conversation_update.
  rewrite (run_bind _ _ _ _ _ (db_call_reliable w Hw)).
  rewrite Hf. reflexivity.
Qed.

Lemma message_create_run (data : nat -> Message) :
  find (message_key (m_instanceId (data (next_id w)))
                    (m_messageId (data (next_id w)))) (messages w) = None ->
  prisma.message_create data w =
  (Ok (data (next_id w)),
   set_next_id (S (next_id w))
     (set_messages (messages w ++ [data (next_id w)]) w)).
Proof.
  intros Hn. unfold prisma.message_create.
  rewrite (run_bind _ _ _ _ _ (db_call_reliable w Hw)).
  cbv zeta. rewrite (find_none_existsb _ _ Hn). reflexivity.
Qed.

Lemma message_update_status_run id s m :
  find (fun m => Nat.eqb (m_id m) id) (messages w) = Some m ->
  prisma.message_update_status id s w =
  (Ok tt,
   set_messages
     (map (fun m => if Nat.eqb (m_id m) id then prisma.with_status s m else m)
          (messages w)) w).
Proof.
  intros Hf. unfold prisma.message_update_status.
  rewrite (run_bind _ _ _ _ _ (db_call_reliable w Hw)).
  rewrite (find_some_existsb _ _ _ Hf). reflexivity.
Qed.

Lemma message_updateMany_status_run cond s :
  prisma.message_updateMany_status cond s w =
  (Ok tt,
   set_messages
     (map (fun m => if cond m then prisma.with_status s m else m) (messages w))
     w).
Proof.
  unfold prisma.message_updateMany_status.
  rewrite (run_bind _ _ _ _ _ (db_call_reliable w Hw)). reflexivity.
Qed.

Lemma instance_update_run id f i :
  find (fun i => Nat.eqb (i_id i) id) (instances w) = Some i ->
  prisma.instance_update id f w =
  (Ok tt,
   set_instances
     (map (fun i => if Nat.eqb (i_id i) id then f i else i) (instances w)) w).
Proof.
  intros Hf. unfold prisma.instance_update.
  rewrite (run_bind _ _ _ _ _ (db_call_reliable w Hw)).
  rewrite (find_some_existsb _ _ _ Hf). reflexivity.
Qed.
End Reliable.

(** A row a lookup returned is there under its own identifier. *)
Lemma found_by_id {A} (p : A -> bool) (id : A -> nat) l x :
  find p l = Some x ->
  exists y, find (fun a => Nat.eqb (id a) (id x)) l = Some y.
Proof.
  intros H.
  destruct (find (fun a => Nat.eqb (id a) (id x)) l) eqn:E; [eauto|].
  exfalso. eapply (find_some_other p (fun a => Nat.eqb (id a) (id x))); eauto.
  apply Nat.eqb_refl.
Qed.

(** ** The upsert blocks on a reliable database *)


Lemma frame_trans w1 w2 w3 : frame w1 w2 -> frame w2 w3 -> frame w1 w3.
Proof.
  unfold frame. intros (a1 & a2 & a3 & a4 & a5) (b1 & b2 & b3 & b4 & b5).
  repeat split; congruence.
Qed.

Lemma frame_reliable w w1 : frame w w1 -> db_reliable w -> db_reliable w1.
Proof. unfold frame, db_reliable. intros (_ & H & _) Hw. congruence. Qed.


(** The contact block returns a contact of the looked-up key; the table
    then holds a row of that key and identifier; an existing row keeps its
    identifier. *)
Lemma findOrCreateContact_run inst md jid w :
  db_reliable w ->
  exists c w1,
    findOrCreateContact inst md jid w = (Ok c, w1) /\
    frame w w1 /\
    conversations w1 = conversations w /\ messages w1 = messages w /\
    emitted w1 = emitted w /\
    (exists c1, find (contact_key (i_id inst) jid) (contacts w1) = Some c1 /\
                c_id c1 = c_id c) /\
    (forall c0, find (contact_key (i_id inst) jid) (contacts w) = Some c0 ->
                c_id c = c_id c0).
Proof.
  intros Hw. unfold findOrCreateContact. cbv zeta.
  rewrite (run_bind _ _ _ _ _ (contact_findUnique_run w Hw _ _)).
  destruct (find (contact_key (i_id inst) jid) (contacts w)) as [c0|] eqn:E.
  - destruct (Js.truthy (pushName md) && negb (Js.truthy (c_pushName c0))) eqn:B.
    + destruct (found_by_id _ c_id _ _ E) as [y Hy].
      rewrite (contact_update_pushName_run w Hw _ _ y Hy).
      pose proof (find_some _ _ Hy) as [_ Hid]. apply Nat.eqb_eq in Hid.
      eexists _, _. split; [reflexivity|].
      repeat split; simpl.
      * exists (prisma.with_pushName (pushName md) c0). split; [|simpl; congruence].
        rewrite find_map_keep.
        -- rewrite E. simpl. rewrite Nat.eqb_refl. reflexivity.
        -- intros x. destruct (Nat.eqb (c_id x) (c_id c0)); reflexivity.
      * intros c1 H1. congruence.
    + eexists _, _. split; [reflexivity|].
      repeat split.
      * exists c0. split; [exact E | reflexivity].
      * intros c1 H1. congruence.
  - rewrite (contact_create_run w Hw _ _ _ _ _ E). cbv zeta.
    eexists _, _. split; [reflexivity|].
    repeat split; simpl.
    + eexists. split.
      * rewrite find_app, E. simpl.
        unfold contact_key. simpl. rewrite Nat.eqb_refl, String.eqb_refl.
        reflexivity.
      * reflexivity.
    + intros c0 H0. discriminate.
Qed.

(** The conversation block returns the row of the pair: the one the lookup
    found, or a new one with status OPEN and nothing unread. *)
Lemma findOrCreateConversation_run inst contact w :
  db_reliable w ->
  exists cv w1,
    findOrCreateConversation inst contact w = (Ok cv, w1) /\
    frame w w1 /\
    contacts w1 = contacts w /\ messages w1 = messages w /\
    emitted w1 = emitted w /\
    find (conversation_key (i_id inst) (c_id contact)) (conversations w1) = Some cv /\
    match find (conversation_key (i_id inst) (c_id contact)) (conversations w) with
    | Some cv0 => cv = cv0 /\ conversations w1 = conversations w
    | None =>
        conversations w1 = (conversations w ++ [cv])%list /\
        cv_status cv = OPEN /\ cv_unreadCount cv = 0
    end.
Proof.
  intros Hw. unfold findOrCreateConversation.
  rewrite (run_bind _ _ _ _ _ (conversation_findUnique_run w Hw _ _)).
  destruct (find (conversation_key (i_id inst) (c_id contact)) (conversations w))
    as [cv0|] eqn:E.
  - eexists _, _. split; [reflexivity|].
    repeat split; try assumption.
  - rewrite (conversation_create_run w Hw _ _ _ E). cbv zeta.
    eexists _, _. split; [reflexivity|].
    repeat split; simpl.
    rewrite find_app, E. simpl.
    unfold conversation_key. simpl. rewrite !Nat.eqb_refl. reflexivity.
Qed.

(** Storing a new message: the message is appended, the row of the
    conversation is rewritten, three events go out. *)
Lemma storeAndFanOut_run inst contact conv md k w i c :
  db_reliable w ->
  find (message_key (i_id inst) (key_id k)) (messages w) = None ->
  find (conversation_key i c) (conversations w) = Some conv ->
  exists w1 upd,
    storeAndFanOut inst contact conv md k w = (Ok tt, w1) /\
    frame w w1 /\ contacts w1 = contacts w /\
    let ts := message_time md (now w) in
    let m := upsert_message inst contact conv md k ts (next_id w) in
    let f := upsert_updateData
               (getLastMessagePreview (n_type (getMessageContent md))
                                      (n_content (getMessageContent md)))
               ts (fromMe k) conv in
    messages w1 = (messages w ++ [m])%list /\
    conversations w1 =
      map (fun c => if Nat.eqb (cv_id c) (cv_id conv) then f c else c)
          (conversations w) /\
    emitted w1 =
      (emitted w ++
       [ {| ev_topic := Room (cv_id conv); ev_name := "message:new";
            ev_payload := PMessage m |};
         {| ev_topic := Broadcast; ev_name := "message:new";
            ev_payload := PNotification m contact (cv_id conv) |};
         {| ev_topic := Broadcast; ev_name := "conversation:update";
            ev_payload := PConversation upd |} ])%list.
Proof.
  intros Hw Hm Hc. unfold storeAndFanOut. cbv zeta.
  rewrite (run_bind _ _ w (now w) w) by reflexivity.
  rewrite (run_bind _ _ _ _ _
             (message_create_run w Hw
                (upsert_message inst contact conv md k (message_time md (now w)))
                Hm)).
  destruct (found_by_id _ cv_id _ _ Hc) as [y Hy].
  set (w1 := set_next_id _ _).
  assert (Hw1 : db_reliable w1) by exact Hw.
  rewrite (run_bind _ _ _ _ _ (conversation_update_run w1 Hw1 _ _ y Hy)).
  unfold bind, emit. simpl.
  eexists _, _. split; [reflexivity|].
  repeat split; simpl.
  rewrite <- !app_assoc. reflexivity.
Qed.

(** The loop body from the instance on, on a reliable database: it
    completes; afterwards the contact of the jid and the conversation of the
    pair exist; a known message id changes neither the messages, nor the
    emissions, nor any existing conversation row; a new one appends one
    message, emits the fan-out once and rewrites the conversation row. *)
Lemma upsertFor_run inst md k w :
  db_reliable w ->
  exists w',
    upsertFor inst md k w = (Ok tt, w') /\ frame w w' /\
    (exists c1 cv1,
        find (contact_key (i_id inst) (remoteJid k)) (contacts w') = Some c1 /\
        find (conversation_key (i_id inst) (c_id c1)) (conversations w') = Some cv1 /\
        forall c0,
          find (contact_key (i_id inst) (remoteJid k)) (contacts w) = Some c0 ->
          c_id c1 = c_id c0 /\
          forall cv0,
            find (conversation_key (i_id inst) (c_id c0)) (conversations w) = Some cv0 ->
            match find (message_key (i_id inst) (key_id k)) (messages w) with
            | Some _ => conversations w' = conversations w
            | None =>
                cv1 = upsert_updateData (preview_of md) (message_time md (now w))
                                        (fromMe k) cv0 cv0
            end) /\
    match find (message_key (i_id inst) (key_id k)) (messages w) with
    | Some _ =>
        messages w' = messages w /\ emitted w' = emitted w /\
        (conversations w' = conversations w \/
         exists cv, conversations w' = (conversations w ++ [cv])%list /\
                    cv_status cv = OPEN /\ cv_unreadCount cv = 0)
    | None =>
        exists m contact upd,
          messages w' = (messages w ++ [m])%list /\
          m_instanceId m = i_id inst /\ m_messageId m = key_id k /\
          m_isFromMe m = fromMe k /\
          m_status m = (if fromMe k then SENT else DELIVERED) /\
          m_type m = n_type (getMessageContent md) /\
          m_content m = n_content (getMessageContent md) /\
          emitted w' = (emitted w ++ fan_out m contact upd)%list
    end.
Proof.
  intros Hw. unfold upsertFor.
  destruct (findOrCreateContact_run inst md (remoteJid k) w Hw)
    as (c & w1 & R1 & F1 & Cv1 & Ms1 & Em1 & (c1 & Fc1 & Idc1) & Keep1).
  rewrite (run_bind _ _ _ _ _ R1).
  pose proof (frame_reliable _ _ F1 Hw) as Hw1.
  destruct (findOrCreateConversation_run inst c w1 Hw1)
    as (cv & w2 & R2 & F2 & Ct2 & Ms2 & Em2 & Fcv2 & Case2).
  rewrite (run_bind _ _ _ _ _ R2).
  pose proof (frame_reliable _ _ F2 Hw1) as Hw2.
  rewrite (run_bind _ _ _ _ _ (message_findUnique_run w2 Hw2 _ _)).
  rewrite Ms2, Ms1.
  destruct (find (message_key (i_id inst) (key_id k)) (messages w)) as [m0|] eqn:Em.
  - (* the message is known: [continue] *)
    exists w2. split; [reflexivity|]. split; [eapply frame_trans; eauto|].
    split.
    + exists c1, cv. rewrite Ct2. split; [exact Fc1|]. rewrite Idc1.
      split; [exact Fcv2|].
      intros c0 H0. specialize (Keep1 c0 H0). split; [congruence|].
      intros cv0 H1. rewrite Cv1, Keep1, H1 in Case2. destruct Case2; congruence.
    + split; [congruence|]. split; [congruence|].
      rewrite Cv1 in Case2.
      destruct (find (conversation_key (i_id inst) (c_id c)) (conversations w)).
      * left. apply Case2.
      * right. exists cv. exact Case2.
  - (* a new message *)
    assert (Em2' : find (message_key (i_id inst) (key_id k)) (messages w2) = None)
      by (rewrite Ms2, Ms1; exact Em).
    destruct (storeAndFanOut_run inst c cv md k w2 _ _ Hw2 Em2' Fcv2)
      as (w3 & upd & R3 & F3 & Ct3 & Ms3 & Cv3 & Em3).
    rewrite R3. exists w3. split; [reflexivity|].
    split; [eapply frame_trans; [|exact F3]; eapply frame_trans; eauto|].
    assert (Hnow : now w2 = now w).
    { destruct F1 as (_ & _ & _ & n1 & _), F2 as (_ & _ & _ & n2 & _). congruence. }
    split.
    + exists c1, (upsert_updateData (preview_of md) (message_time md (now w))
                                     (fromMe k) cv cv).
      rewrite Ct3, Ct2. split; [exact Fc1|]. rewrite Idc1.
      split.
      * rewrite Cv3, find_map_keep.
        -- rewrite Fcv2. simpl. rewrite Nat.eqb_refl, Hnow. reflexivity.
        -- intros x. destruct (Nat.eqb (cv_id x) (cv_id cv)); reflexivity.
      * intros c0 H0. specialize (Keep1 c0 H0). split; [congruence|].
        intros cv0 H1. rewrite Cv1, Keep1, H1 in Case2.
        destruct Case2 as [-> _]. reflexivity.
    + eexists _, c, upd. split; [rewrite Ms3, Ms2, Ms1; reflexivity|].
      repeat split.
      rewrite Em3, Em2, Em1. reflexivity.
Qed.

(** ** Message normalizer: precedence *)

(** C2, the claim as stated fails: a payload with both [conversation] and
    [imageMessage] is normalized as TEXT with the plain text, not as IMAGE
    with the caption. *)
Lemma text_and_image_is_text :
  conversation Sample.text_and_image = Some "Oi" /\
  imageMessage Sample.text_and_image = Some Sample.picture /\
  getMessageContent (Sample.inbound Sample.ana "MSG1" Sample.text_and_image)
    = plain (Some (Raw "Oi")) TEXT /\
  ~ (n_type (getMessageContent
               (Sample.inbound Sample.ana "MSG1" Sample.text_and_image)) = IMAGE /\
     n_content (getMessageContent
                  (Sample.inbound Sample.ana "MSG1" Sample.text_and_image))
       = raw (image_caption Sample.picture)).
Proof.
  repeat split. intros [H _]. discriminate H.
Qed.

(** C2, as amended: with an image field present, a non-empty plain text wins
    (TEXT, content the plain text); the payload is IMAGE with the caption
    ([null] for an empty or absent one) exactly when neither the plain text
    nor the extended text is truthy. *)
Theorem getMessageContent_text_before_image md m im :
  message md = Some m ->
  imageMessage m = Some im ->
  (Js.truthy (conversation m) = true ->
     getMessageContent md = plain (raw (conversation m)) TEXT) /\
  (Js.truthy (conversation m) = false ->
   Js.truthy (extended_text m) = true ->
     getMessageContent md = plain (raw (extended_text m)) TEXT) /\
  (Js.truthy (conversation m) = false ->
   Js.truthy (extended_text m) = false ->
     n_type (getMessageContent md) = IMAGE /\
     n_content (getMessageContent md) = raw (Js.or_null (image_caption im))).
Proof.
  intros Hm Him. unfold getMessageContent. rewrite Hm.
  split; [|split].
  - intros ->. reflexivity.
  - intros -> ->. reflexivity.
  - intros -> ->. rewrite Him. split; reflexivity.
Qed.

Lemma getMessageContent_text_before_image_witness :
  getMessageContent (Sample.inbound Sample.ana "MSG1" Sample.text_and_image)
  = plain (raw (conversation Sample.text_and_image)) TEXT.
Proof.
  exact (proj1 (getMessageContent_text_before_image
                  (Sample.inbound Sample.ana "MSG1" Sample.text_and_image)
                  Sample.text_and_image Sample.picture eq_refl eq_refl)
               eq_refl).
Defined.

(** ** Status reconciler *)

Lemma newStatus_of_code cur u code :
  update u = Some {| update_status := Some code |} ->
  newStatus_of cur u = vendor_status cur code.
Proof.
  intros H. unfold newStatus_of. rewrite H. simpl.
  destruct (code =? 0)%Z eqn:E; [|reflexivity].
  apply Z.eqb_eq in E. subst. reflexivity.
Qed.

(** The body of the update loop on a reliable database. *)
Lemma updateItem_run name u k w :
  db_reliable w ->
  key u = Some k -> key_id k <> "" ->
  updateItem name (Some u) w =
  match find (fun i => i_name i =? name) (instances w) with
  | None => (Ok tt, w)
  | Some inst =>
      match find (message_key (i_id inst) (key_id k)) (messages w) with
      | None => (Ok tt, w)
      | Some msg =>
          if MessageStatus_eqb (newStatus_of (m_status msg) u) (m_status msg)
          then (Ok tt, w)
          else (Ok tt, status_applied msg (newStatus_of (m_status msg) u) w)
      end
  end.
Proof.
  intros Hw Hk Hid. unfold updateItem. rewrite Hk.
  apply String.eqb_neq in Hid. rewrite Hid.
  rewrite (run_bind _ _ _ _ _ (instance_findUnique_run w Hw _)).
  destruct (find (fun i => i_name i =? name) (instances w)) as [inst|];
    [|reflexivity].
  rewrite (run_bind _ _ _ _ _ (message_findUnique_run w Hw _ _)).
  destruct (find (message_key (i_id inst) (key_id k)) (messages w)) as [msg|] eqn:E;
    [|reflexivity].
  destruct (MessageStatus_eqb (newStatus_of (m_status msg) u) (m_status msg));
    [reflexivity|]. simpl.
  destruct (found_by_id _ m_id _ _ E) as [y Hy].
  rewrite (run_bind _ _ _ _ _ (message_update_status_run w Hw _ _ y Hy)).
  reflexivity.
Qed.



(** C5, the claim as stated fails: vendor code 3 for a message stored as READ
    writes DELIVERED over it and emits a [message:update]. *)
Lemma delivered_over_read_emits :
  option_map m_status (find (message_key 1 "MSG1") (messages Sample.w_read))
    = Some READ /\
  let w' := Sample.after
              (handleMessagesUpdate "shop1" [Some (Sample.status_item "MSG1" 3)])
              Sample.w_read in
  emitted w' =
    (emitted Sample.w_read ++
     [ {| ev_topic := Room 3; ev_name := "message:update";
          ev_payload := PMessageStatus 4 DELIVERED |} ])%list /\
  option_map m_status (find (message_key 1 "MSG1") (messages w')) = Some DELIVERED.
Proof. vm_compute. repeat split. Qed.

(** C5, as amended: vendor code 3 is suppressed only on an exact match.  For
    a message stored as DELIVERED the item writes and emits nothing; for a
    message stored with any other status, READ included, the item stores
    DELIVERED and emits one [message:update] to the room of the
    conversation. *)
Theorem code3_suppressed_only_on_delivered name u k inst msg w :
  db_reliable w ->
  key u = Some k -> key_id k <> "" ->
  update u = Some {| update_status := Some 3%Z |} ->
  find (fun i => i_name i =? name) (instances w) = Some inst ->
  find (message_key (i_id inst) (key_id k)) (messages w) = Some msg ->
  (m_status msg = DELIVERED -> updateItem name (Some u) w = (Ok tt, w)) /\
  (m_status msg <> DELIVERED ->
     updateItem name (Some u) w = (Ok tt, status_applied msg DELIVERED w)) /\
  (m_status msg = READ ->
     emitted (snd (updateItem name (Some u) w))
     = (emitted w ++ [status_delta msg DELIVERED])%list).
Proof.
  intros Hw Hk Hid Hu Hi Hm.
  pose proof (updateItem_run name u k w Hw Hk Hid) as R.
  rewrite Hi, Hm, (newStatus_of_code _ _ _ Hu) in R.
  change (vendor_status (m_status msg) 3) with DELIVERED in R.
  repeat split.
  - intros E. rewrite E in R. exact R.
  - intros E. destruct (m_status msg); try exact R. congruence.
  - intros E. rewrite E in R. rewrite R. reflexivity.
Qed.

Lemma code3_suppressed_only_on_delivered_witness :
  emitted (snd (updateItem "shop1" (Some (Sample.status_item "MSG1" 3)) Sample.w_read))
  = (emitted Sample.w_read
     ++ [ {| ev_topic := Room 3; ev_name := "message:update";
             ev_payload := PMessageStatus 4 DELIVERED |} ])%list.
Proof.
  exact (proj2 (proj2 (code3_suppressed_only_on_delivered "shop1"
           (Sample.status_item "MSG1" 3)
           {| remoteJid := ""; fromMe := false; key_id := "MSG1" |}
           Sample.shop1
           {| m_id := 4; m_messageId := "MSG1"; m_content := Some (Raw "Oi");
              m_type := TEXT; m_status := READ; m_isFromMe := false;
              m_timestamp := 5000; m_mediaUrl := None; m_mediaMimeType := None;
              m_mediaFileName := None; m_quotedMessageId := None;
              m_instanceId := 1; m_contactId := 2; m_conversationId := 3 |}
           Sample.w_read eq_refl eq_refl ltac:(discriminate) eq_refl eq_refl
           eq_refl)) eq_refl).
Defined.

(** ** The handlers complete on a reliable database *)







Lemma no_null_as_array d : no_null d -> no_null_item (as_array d).
Proof.
  destruct d as [l|v]; simpl; [auto|].
  intros H. constructor; [exact H | constructor].
Qed.



(** ** The webhook endpoint *)




(** ** Failure semantics of a batch *)





(** ** One routable item for a known instance *)

Lemma upsertItem_upsertFor name md k inst w :
  db_reliable w ->
  key md = Some k -> routable k = true ->
  find (fun i => i_name i =? name) (instances w) = Some inst ->
  upsertItem name (Some md) w = upsertFor inst md k w.
Proof.
  intros Hw Hk Hr Hi. unfold upsertItem. rewrite Hk, Hr.
  rewrite (run_bind _ _ _ _ _ (instance_findUnique_run w Hw _)), Hi.
  reflexivity.
Qed.

Lemma handleMessagesUpsert_single name i w w1 :
  upsertItem name i w = (Ok tt, w1) ->
  handleMessagesUpsert name [i] w = (Ok tt, w1).
Proof. intros H. simpl. rewrite (run_bind _ _ _ _ _ H). reflexivity. Qed.



(** ** Idempotence of the upsert *)







(** ** One conversation per (instance, contact) *)

Lemma preserves_ret {A} (a : A) : preserves (ret a).
Proof. intros w H. exact H. Qed.

Lemma preserves_throw {A} e : preserves (@throw A e).
Proof. intros w H. exact H. Qed.

Lemma preserves_bind {A B} (m : M A) (k : A -> M B) :
  preserves m -> (forall a, preserves (k a)) -> preserves (bind m k).
Proof.
  intros Hm Hk w H. unfold bind. specialize (Hm w H).
  destruct (m w) as [[a|e] w1]; simpl in *; [apply Hk, Hm | exact Hm].
Qed.

Lemma preserves_try_catch {A} (m : M A) (h : Exn -> M A) :
  preserves m -> (forall e, preserves (h e)) -> preserves (try_catch m h).
Proof.
  intros Hm Hh w H. unfold try_catch. specialize (Hm w H).
  destruct (m w) as [[a|e] w1]; simpl in *; [exact Hm | apply Hh, Hm].
Qed.

(** A step that leaves the conversations table alone. *)
Lemma preserves_untouched {A} (m : M A) :
  (forall w, conversations (snd (m w)) = conversations w) -> preserves m.
Proof. intros Hm w H. unfold conv_unique. rewrite Hm. exact H. Qed.

Lemma preserves_db_call : preserves db_call.
Proof.
  apply preserves_untouched. intros w. unfold db_call.
  destruct (db_faults w) as [|[] f]; reflexivity.
Qed.

(** A database call followed by a step on the store. *)
Lemma preserves_after_db_call {A} (step : M A) :
  preserves step -> preserves (bind db_call (fun _ => step)).
Proof. intros H. apply preserves_bind; [apply preserves_db_call | intros _; exact H]. Qed.

Lemma conversation_key_pair i c x :
  conversation_key i c x = true <-> conv_pair x = (i, c).
Proof.
  unfold conversation_key, conv_pair. rewrite andb_true_iff, !Nat.eqb_eq.
  split; [intros [-> ->]; reflexivity | intros H; inversion H; auto].
Qed.

Lemma preserves_conversation_create i c st :
  preserves (prisma.conversation_create i c st).
Proof.
  apply preserves_after_db_call. intros w H.
  destruct (existsb (conversation_key i c) (conversations w)) eqn:E;
    [exact H|].
  unfold conv_unique. simpl. rewrite map_app. simpl.
  apply NoDup_app; [exact H | repeat constructor; simpl; tauto |].
  intros p Hp [<-|[]]. apply in_map_iff in Hp as (x & Hx & Hin).
  assert (T : existsb (conversation_key i c) (conversations w) = true).
  { apply existsb_exists. exists x. split; [exact Hin|].
    apply conversation_key_pair. exact Hx. }
  congruence.
Qed.

Lemma preserves_conversation_update id f :
  (forall c, conv_pair (f c) = conv_pair c) ->
  preserves (prisma.conversation_update id f).
Proof.
  intros Hf. apply preserves_after_db_call. intros w H.
  destruct (find (fun c => Nat.eqb (cv_id c) id) (conversations w)); [|exact H].
  unfold conv_unique. simpl. rewrite map_map.
  erewrite map_ext; [exact H|].
  intros a. simpl. destruct (Nat.eqb (cv_id a) id); [apply Hf | reflexivity].
Qed.

(** The steps that never write a conversation. *)
Lemma preserves_store_read {A} (q : World -> A) :
  preserves (bind db_call (fun _ w => (Ok (q w), w))).
Proof. apply preserves_after_db_call. intros w H. exact H. Qed.

Lemma preserves_contact_create i jid push phone g :
  preserves (prisma.contact_create i jid push phone g).
Proof.
  apply preserves_after_db_call, preserves_untouched. intros w.
  destruct (existsb _ _); reflexivity.
Qed.

Lemma preserves_contact_update_pushName id p :
  preserves (prisma.contact_update_pushName id p).
Proof.
  apply preserves_after_db_call, preserves_untouched. intros w.
  destruct (find _ _); reflexivity.
Qed.

Lemma preserves_message_create data : preserves (prisma.message_create data).
Proof.
  apply preserves_after_db_call, preserves_untouched. intros w. cbv zeta.
  destruct (existsb _ _); reflexivity.
Qed.

Lemma preserves_message_update_status id s :
  preserves (prisma.message_update_status id s).
Proof.
  apply preserves_after_db_call, preserves_untouched. intros w.
  destruct (existsb _ _); reflexivity.
Qed.

Lemma preserves_message_updateMany_status cond s :
  preserves (prisma.message_updateMany_status cond s).
Proof. apply preserves_after_db_call, preserves_untouched. reflexivity. Qed.

Lemma preserves_instance_update id f : preserves (prisma.instance_update id f).
Proof.
  apply preserves_after_db_call, preserves_untouched. intros w.
  destruct (existsb _ _); reflexivity.
Qed.

Lemma preserves_emit t name p : preserves (emit t name p).
Proof. apply preserves_untouched. reflexivity. Qed.

Lemma preserves_current_time : preserves current_time.
Proof. apply preserves_untouched. reflexivity. Qed.

Lemma preserves_gateway_call c : preserves (gateway_call c).
Proof.
  apply preserves_untouched. intros w. unfold gateway_call.
  destruct (gw_faults w) as [|[] f]; reflexivity.
Qed.

(** Composite computations, by their structure. *)
Ltac preserved :=
  repeat first
    [ apply preserves_ret
    | apply preserves_throw
    | apply preserves_emit
    | apply preserves_current_time
    | apply preserves_gateway_call
    | apply preserves_store_read
    | apply preserves_contact_create
    | apply preserves_contact_update_pushName
    | apply preserves_conversation_create
    | apply preserves_conversation_update; reflexivity
    | apply preserves_message_create
    | apply preserves_message_update_status
    | apply preserves_message_updateMany_status
    | apply preserves_instance_update
    | apply preserves_bind; [|intro]
    | apply preserves_try_catch; [|intro]
    | match goal with
      | |- preserves (match ?x with _ => _ end) => destruct x
      end ].

Lemma preserves_upsertItem name item : preserves (upsertItem name item).
Proof.
  unfold upsertItem, upsertFor, findOrCreateContact, findOrCreateConversation,
    storeAndFanOut, prisma.instance_findUnique, prisma.contact_findUnique,
    prisma.conversation_findUnique, prisma.message_findUnique.
  cbv zeta. preserved.
Qed.

Lemma preserves_handleMessagesUpsert name items :
  preserves (handleMessagesUpsert name items).
Proof.
  induction items as [|i items IH]; simpl.
  - apply preserves_ret.
  - apply preserves_bind; [apply preserves_upsertItem | intros _; exact IH].
Qed.

Lemma preserves_updateItem name item : preserves (updateItem name item).
Proof.
  unfold updateItem, prisma.instance_findUnique, prisma.message_findUnique.
  cbv zeta. preserved.
Qed.

Lemma preserves_handleMessagesUpdate name items :
  preserves (handleMessagesUpdate name items).
Proof.
  induction items as [|i items IH]; simpl.
  - apply preserves_ret.
  - apply preserves_bind; [apply preserves_updateItem | intros _; exact IH].
Qed.

Lemma preserves_handleWebhook payload : preserves (handleWebhook payload).
Proof.
  unfold handleWebhook, webhook_try, dispatch.
  apply preserves_try_catch; [|intro; apply preserves_ret].
  destruct (event payload); [|apply preserves_throw].
  apply preserves_bind; [|intro; apply preserves_ret].
  destruct (_ =? "MESSAGES_UPSERT"); [apply preserves_handleMessagesUpsert|].
  destruct (_ =? "MESSAGES_UPDATE"); [apply preserves_handleMessagesUpdate|].
  unfold handleConnectionUpdate, handleQrCodeUpdate, prisma.instance_findUnique.
  preserved.
Qed.

Lemma preserves_markAsRead id : preserves (markAsRead id).
Proof.
  unfold markAsRead, markAsRead_try, conversation_with_includes,
    forward_read_receipt, prisma.contact_findUnique_id.
  preserved.
Qed.

Lemma unique_row l i c cv :
  NoDup (map conv_pair l) ->
  find (conversation_key i c) l = Some cv ->
  List.length (filter (conversation_key i c) l) = 1.
Proof.
  induction l as [|a l IH]; simpl; [discriminate|].
  intros Hnd Hf. inversion Hnd as [|p ps Hnot Hnd']; subst.
  destruct (conversation_key i c a) eqn:Ka.
  - simpl. f_equal. apply length_zero_iff_nil.
    destruct (filter (conversation_key i c) l) as [|x xs] eqn:Ef; [reflexivity|].
    exfalso. apply Hnot.
    assert (Hx : In x (filter (conversation_key i c) l)) by (rewrite Ef; left; reflexivity).
    apply filter_In in Hx as [Hin Kx].
    apply conversation_key_pair in Ka, Kx. rewrite Ka, <- Kx.
    apply in_map, Hin.
  - apply IH; assumption.
Qed.

(** C7: every webhook and every mark-as-read call, whatever the payload and
    whichever database calls reject, keeps at most one conversation per
    (instance, contact); the conversation block looks the pair up first and
    creates a row, OPEN with nothing unread, only on a miss; two routable
    items of one jid, run in sequence, leave exactly one conversation for
    the contact. *)
Theorem conversation_singleton :
  (forall payload w, conv_unique w -> conv_unique (snd (handleWebhook payload w))) /\
  (forall id w, conv_unique w -> conv_unique (snd (markAsRead id w))) /\
  (forall inst contact w, db_reliable w ->
     exists cv w1,
       findOrCreateConversation inst contact w = (Ok cv, w1) /\
       match find (conversation_key (i_id inst) (c_id contact)) (conversations w) with
       | Some cv0 => cv = cv0 /\ conversations w1 = conversations w
       | None =>
           conversations w1 = (conversations w ++ [cv])%list /\
           cv_status cv = OPEN /\ cv_unreadCount cv = 0
       end) /\
  (forall name inst md1 md2 k1 k2 w,
     db_reliable w -> conv_unique w ->
     find (fun i => i_name i =? name) (instances w) = Some inst ->
     key md1 = Some k1 -> key md2 = Some k2 ->
     routable k1 = true -> remoteJid k2 = remoteJid k1 ->
     exists w2 c,
       handleMessagesUpsert name [Some md1; Some md2] w = (Ok tt, w2) /\
       find (contact_key (i_id inst) (remoteJid k1)) (contacts w2) = Some c /\
       List.length (filter (conversation_key (i_id inst) (c_id c))
                           (conversations w2)) = 1).
Proof.
  split; [intros payload; apply preserves_handleWebhook|].
  split; [intros id; apply preserves_markAsRead|].
  split.
  - intros inst contact w Hw.
    destruct (findOrCreateConversation_run inst contact w Hw)
      as (cv & w1 & R & _ & _ & _ & _ & _ & C).
    exists cv, w1. split; assumption.
  - intros name inst md1 md2 k1 k2 w Hw Hu Hi Hk1 Hk2 Hr1 Hj.
    assert (Hr2 : routable k2 = true) by (unfold routable in *; rewrite Hj; exact Hr1).
    destruct (upsertFor_run inst md1 k1 w Hw) as (w1 & R1 & F1 & _ & _).
    pose proof (frame_reliable _ _ F1 Hw) as Hw1.
    assert (Hi1 : find (fun i => i_name i =? name) (instances w1) = Some inst).
    { destruct F1 as (-> & _). exact Hi. }
    destruct (upsertFor_run inst md2 k2 w1 Hw1)
      as (w2 & R2 & _ & (c & cv & Fc & Fcv & _) & _).
    rewrite <- (upsertItem_upsertFor name md1 k1 inst w Hw Hk1 Hr1 Hi) in R1.
    rewrite <- (upsertItem_upsertFor name md2 k2 inst w1 Hw1 Hk2 Hr2 Hi1) in R2.
    assert (Run : handleMessagesUpsert name [Some md1; Some md2] w = (Ok tt, w2)).
    { simpl. rewrite (run_bind _ _ _ _ _ R1), (run_bind _ _ _ _ _ R2). reflexivity. }
    exists w2, c. split; [exact Run|]. rewrite <- Hj. split; [exact Fc|].
    apply (unique_row _ _ _ cv); [|exact Fcv].
    pose proof (preserves_handleMessagesUpsert name [Some md1; Some md2] w Hu) as P.
    rewrite Run in P. exact P.
Qed.

Lemma conversation_singleton_witness :
  exists w2 c,
    handleMessagesUpsert "shop1" [Some Sample.msg1; Some Sample.msg2] Sample.w0
      = (Ok tt, w2) /\
    find (contact_key 1 Sample.ana) (contacts w2) = Some c /\
    List.length (filter (conversation_key 1 (c_id c)) (conversations w2)) = 1.
Proof.
  refine (proj2 (proj2 (proj2 conversation_singleton)) "shop1" Sample.shop1
            Sample.msg1 Sample.msg2
            {| remoteJid := Sample.ana; fromMe := false; key_id := "MSG1" |}
            {| remoteJid := Sample.ana; fromMe := false; key_id := "MSG2" |}
            Sample.w0 eq_refl _ eq_refl eq_refl eq_refl eq_refl eq_refl).
  constructor.
Defined.

(** ** Mark as read *)






(** The inner [try] on a reliable database: it completes whether or not the
    gateway rejects, and touches nothing but the gateway. *)
Lemma forward_read_receipt_run conv inst msgs w :
  db_reliable w ->
  exists w1,
    forward_read_receipt conv inst msgs w = (Ok tt, w1) /\
    db_reliable w1 /\ instances w1 = instances w /\ contacts w1 = contacts w /\
    conversations w1 = conversations w /\ messages w1 = messages w /\
    emitted w1 = emitted w /\
    gw_calls w1 = (gw_calls w ++ receipt_calls conv inst msgs w)%list.
Proof.
  intros Hw. unfold forward_read_receipt, try_catch, receipt_calls.
  rewrite (run_bind _ _ _ _ _ (contact_findUnique_id_run w Hw _)).
  destruct (find _ (contacts w)) as [contact|].
  - unfold gateway_call.
    destruct (gw_faults w) as [|[] f]; eexists; (split; [reflexivity|]);
      repeat split; exact Hw.
  - eexists. split; [reflexivity|]. repeat split; [exact Hw|].
    simpl. rewrite app_nil_r. reflexivity.
Qed.

(** [markAsRead] on a reliable database, whatever the gateway does. *)
Lemma markAsRead_run id cv w :
  db_reliable w ->
  find (fun c => Nat.eqb (cv_id c) id) (conversations w) = Some cv ->
  exists w',
    markAsRead id w = (Ok marked_as_read_200, w') /\
    db_reliable w' /\ instances w' = instances w /\ contacts w' = contacts w /\
    messages w' =
      map (fun m => if unread_inbound id m then prisma.with_status READ m else m)
          (messages w) /\
    conversations w' =
      map (fun c => if Nat.eqb (cv_id c) id then with_unreadCount 0 c else c)
          (conversations w) /\
    emitted w' = emitted w /\
    gw_calls w' = (gw_calls w ++ receipts id cv w)%list.
Proof.
  intros Hw Hc. unfold markAsRead, try_catch, markAsRead_try.
  assert (R0 : conversation_with_includes id w =
               (Ok (Some (cv, prisma.instance_byId (cv_instanceId cv) w,
                          included_messages id w)), w)).
  { unfold conversation_with_includes.
    rewrite (run_bind _ _ _ _ _ (db_call_reliable w Hw)), Hc. reflexivity. }
  rewrite (run_bind _ _ _ _ _ R0).
  assert (Fwd : exists w1,
    (match prisma.instance_byId (cv_instanceId cv) w with
     | Some inst =>
         if InstanceStatus_eqb (i_status inst) CONNECTED
            && Nat.ltb 0 (List.length (included_messages id w))
         then forward_read_receipt cv inst (included_messages id w)
         else ret tt
     | None => ret tt
     end) w = (Ok tt, w1) /\
    db_reliable w1 /\ instances w1 = instances w /\ contacts w1 = contacts w /\
    conversations w1 = conversations w /\ messages w1 = messages w /\
    emitted w1 = emitted w /\
    gw_calls w1 = (gw_calls w ++ receipts id cv w)%list).
  { unfold receipts.
    destruct (prisma.instance_byId (cv_instanceId cv) w) as [inst|].
    - destruct (InstanceStatus_eqb (i_status inst) CONNECTED
                && Nat.ltb 0 (List.length (included_messages id w))).
      + apply forward_read_receipt_run, Hw.
      + exists w. rewrite app_nil_r. repeat split. exact Hw.
    - exists w. rewrite app_nil_r. repeat split. exact Hw. }
  destruct Fwd as (w1 & R1 & Hw1 & I1 & Ct1 & Cv1 & Ms1 & Em1 & Gw1).
  rewrite (run_bind _ _ _ _ _ R1).
  rewrite (run_bind _ _ _ _ _ (message_updateMany_status_run w1 Hw1 _ _)).
  set (w2 := set_messages _ w1).
  assert (Hw2 : db_reliable w2) by exact Hw1.
  assert (Hc2 : find (fun c => Nat.eqb (cv_id c) id) (conversations w2) = Some cv).
  { simpl. rewrite Cv1. exact Hc. }
  rewrite (run_bind _ _ _ _ _ (conversation_update_run w2 Hw2 _ _ cv Hc2)).
  eexists. split; [reflexivity|]. subst w2. simpl.
  rewrite Ms1, Cv1. repeat split; assumption.
Qed.




Lemma markAsRead_resets id cv w w' :
  find (fun c => Nat.eqb (cv_id c) id) (conversations w) = Some cv ->
  conversations w' =
    map (fun c => if Nat.eqb (cv_id c) id then with_unreadCount 0 c else c)
        (conversations w) ->
  forall p, (forall n c, p (with_unreadCount n c) = p c) ->
            find p (conversations w) = Some cv ->
            find p (conversations w') = Some (with_unreadCount 0 cv).
Proof.
  intros Hc -> p Hp Hf. rewrite find_map_keep.
  - rewrite Hf. simpl. apply find_some in Hc as [_ ->]. reflexivity.
  - intros x. destruct (Nat.eqb (cv_id x) id); [apply Hp | reflexivity].
Qed.



(** ** Unread accounting *)




(** * Further properties *)

(** ** Relations every step of a handler respects *)

Section Respect.

Variable R : World -> World -> Prop.
Hypothesis R_refl : forall w, R w w.
Hypothesis R_trans : forall w1 w2 w3, R w1 w2 -> R w2 w3 -> R w1 w3.

Lemma respects_ret {A} (a : A) : respects R (ret a).
Proof. intros w. apply R_refl. Qed.

Lemma respects_throw {A} e : respects R (@throw A e).
Proof. intros w. apply R_refl. Qed.

Lemma respects_bind {A B} (m : M A) (k : A -> M B) :
  respects R m -> (forall a, respects R (k a)) -> respects R (bind m k).
Proof.
  intros Hm Hk w. unfold bind. specialize (Hm w).
  destruct (m w) as [[a|e] w1]; simpl in *; [|exact Hm].
  eapply R_trans; [exact Hm | apply Hk].
Qed.

Lemma respects_try_catch {A} (m : M A) (h : Exn -> M A) :
  respects R m -> (forall e, respects R (h e)) -> respects R (try_catch m h).
Proof.
  intros Hm Hh w. unfold try_catch. specialize (Hm w).
  destruct (m w) as [[a|e] w1]; simpl in *; [exact Hm|].
  eapply R_trans; [exact Hm | apply Hh].
Qed.

(** The steps of the database client and of the socket server. *)
Hypothesis R_db_call : respects R db_call.
Hypothesis R_contact_create :
  forall i jid push phone g, respects R (prisma.contact_create i jid push phone g).
Hypothesis R_contact_update :
  forall id p, respects R (prisma.contact_update_pushName id p).
Hypothesis R_conversation_create :
  forall i c st, respects R (prisma.conversation_create i c st).
Hypothesis R_conversation_update :
  forall id f, (forall c, cv_id (f c) = cv_id c /\ conv_pair (f c) = conv_pair c) ->
               respects R (prisma.conversation_update id f).
Hypothesis R_message_create : forall data, respects R (prisma.message_create data).
Hypothesis R_message_update_status :
  forall id s, respects R (prisma.message_update_status id s).
Hypothesis R_message_updateMany_status :
  forall cond s, respects R (prisma.message_updateMany_status cond s).
Hypothesis R_instance_update :
  forall id s q, respects R (prisma.instance_update id (set_instance_status s q)).
Hypothesis R_emit :
  forall t name p,
    channel_event {| ev_topic := t; ev_name := name; ev_payload := p |} = true ->
    respects R (emit t name p).
Hypothesis R_gateway_call : forall c, respects R (gateway_call c).

Lemma respects_read {A} (q : World -> A) :
  respects R (bind db_call (fun _ w => (Ok (q w), w))).
Proof. apply respects_bind; [exact R_db_call | intros _ w; apply R_refl]. Qed.

Lemma respects_current_time : respects R current_time.
Proof. intros w. apply R_refl. Qed.

Ltac respected :=
  repeat first
    [ apply respects_ret
    | apply respects_throw
    | apply respects_current_time
    | apply respects_read
    | apply R_emit; reflexivity
    | apply R_gateway_call
    | apply R_contact_create
    | apply R_contact_update
    | apply R_conversation_create
    | apply R_conversation_update; intros; split; reflexivity
    | apply R_message_create
    | apply R_message_update_status
    | apply R_message_updateMany_status
    | apply R_instance_update
    | apply respects_bind; [|intro]
    | apply respects_try_catch; [|intro]
    | match goal with
      | |- respects R (match ?x with _ => _ end) => destruct x
      end ].

Lemma respects_upsertItem name item : respects R (upsertItem name item).
Proof.
  unfold upsertItem, upsertFor, findOrCreateContact, findOrCreateConversation,
    storeAndFanOut, prisma.instance_findUnique, prisma.contact_findUnique,
    prisma.conversation_findUnique, prisma.message_findUnique.
  cbv zeta. respected.
Qed.

Lemma respects_handleMessagesUpsert name items :
  respects R (handleMessagesUpsert name items).
Proof.
  induction items as [|i items IH]; simpl.
  - apply respects_ret.
  - apply respects_bind; [apply respects_upsertItem | intros _; exact IH].
Qed.

Lemma respects_updateItem name item : respects R (updateItem name item).
Proof.
  unfold updateItem, prisma.instance_findUnique, prisma.message_findUnique.
  cbv zeta. respected.
Qed.

Lemma respects_handleMessagesUpdate name items :
  respects R (handleMessagesUpdate name items).
Proof.
  induction items as [|i items IH]; simpl.
  - apply respects_ret.
  - apply respects_bind; [apply respects_updateItem | intros _; exact IH].
Qed.

Lemma respects_handleConnectionUpdate name d :
  respects R (handleConnectionUpdate name d).
Proof.
  unfold handleConnectionUpdate, prisma.instance_findUnique. respected.
Qed.

Lemma respects_handleQrCodeUpdate name d : respects R (handleQrCodeUpdate name d).
Proof.
  unfold handleQrCodeUpdate, prisma.instance_findUnique. respected.
Qed.

Lemma respects_handleWebhook payload : respects R (handleWebhook payload).
Proof.
  unfold handleWebhook, webhook_try, dispatch.
  apply respects_try_catch; [|intro; apply respects_ret].
  destruct (event payload); [|apply respects_throw].
  apply respects_bind; [|intro; apply respects_ret].
  destruct (_ =? "MESSAGES_UPSERT"); [apply respects_handleMessagesUpsert|].
  destruct (_ =? "MESSAGES_UPDATE"); [apply respects_handleMessagesUpdate|].
  destruct (_ =? "CONNECTION_UPDATE"); [apply respects_handleConnectionUpdate|].
  destruct (_ || _); [apply respects_handleQrCodeUpdate|].
  destruct (_ || _); apply respects_ret.
Qed.

Lemma respects_markAsRead id : respects R (markAsRead id).
Proof.
  unfold markAsRead, markAsRead_try, conversation_with_includes,
    forward_read_receipt, prisma.contact_findUnique_id.
  respected.
Qed.

End Respect.

(** ** The unique indexes of contacts, messages and instance names *)

Lemma keeps_indexes_refl w : keeps_indexes w w.
Proof. repeat split; auto. Qed.

Lemma keeps_indexes_trans w1 w2 w3 :
  keeps_indexes w1 w2 -> keeps_indexes w2 w3 -> keeps_indexes w1 w3.
Proof. intros (a & b & c) (a' & b' & c'). repeat split; auto. Qed.

Lemma keeps_indexes_same w w' :
  contacts w' = contacts w -> messages w' = messages w ->
  instances w' = instances w -> keeps_indexes w w'.
Proof.
  intros Hc Hm Hi. unfold keeps_indexes, contact_unique, message_unique,
    instance_names_unique. rewrite Hc, Hm, Hi. repeat split; auto.
Qed.

Lemma NoDup_map_snoc {A B} (f : A -> B) l a :
  NoDup (map f l) -> (forall x, In x l -> f x <> f a) -> NoDup (map f (l ++ [a])).
Proof.
  intros Hnd Hnew. rewrite map_app. simpl.
  apply NoDup_app; [exact Hnd | repeat constructor; simpl; tauto |].
  intros b Hb [<-|[]]. apply in_map_iff in Hb as (x & Hx & Hin).
  exact (Hnew x Hin Hx).
Qed.

Lemma existsb_false_In {A} (p : A -> bool) l x :
  existsb p l = false -> In x l -> p x = false.
Proof.
  intros He Hin. destruct (p x) eqn:Px; [|reflexivity].
  assert (existsb p l = true) by (apply existsb_exists; eauto). congruence.
Qed.

Lemma contact_key_pair i jid x :
  contact_key i jid x = true <-> contact_pair x = (i, jid).
Proof.
  unfold contact_key, contact_pair. rewrite andb_true_iff, Nat.eqb_eq, String.eqb_eq.
  split; [intros [-> ->]; reflexivity | intros H; inversion H; auto].
Qed.

Lemma message_key_pair i mid x :
  message_key i mid x = true <-> message_pair x = (i, mid).
Proof.
  unfold message_key, message_pair. rewrite andb_true_iff, Nat.eqb_eq, String.eqb_eq.
  split; [intros [-> ->]; reflexivity | intros H; inversion H; auto].
Qed.

Lemma indexes_after_db_call {A} (step : M A) :
  respects keeps_indexes step ->
  respects keeps_indexes (bind db_call (fun _ => step)).
Proof.
  intros H. apply (respects_bind _ keeps_indexes_trans); [|intros _; exact H].
  intros w. apply keeps_indexes_same; unfold db_call;
    destruct (db_faults w) as [|[] f]; reflexivity.
Qed.

Lemma indexes_db_call : respects keeps_indexes db_call.
Proof.
  intros w. apply keeps_indexes_same; unfold db_call;
    destruct (db_faults w) as [|[] f]; reflexivity.
Qed.

Lemma indexes_contact_create i jid push phone g :
  respects keeps_indexes (prisma.contact_create i jid push phone g).
Proof.
  apply indexes_after_db_call. intros w.
  destruct (existsb (contact_key i jid) (contacts w)) eqn:E;
    [apply keeps_indexes_refl|].
  cbv zeta. simpl. split; [|split; auto].
  unfold contact_unique. simpl. intros Hnd. apply NoDup_map_snoc; [exact Hnd|].
  intros x Hin Hx. apply (proj2 (contact_key_pair i jid x)) in Hx.
  rewrite (existsb_false_In _ _ _ E Hin) in Hx. discriminate.
Qed.

Lemma indexes_contact_update id p :
  respects keeps_indexes (prisma.contact_update_pushName id p).
Proof.
  apply indexes_after_db_call. intros w.
  destruct (find _ (contacts w)); [|apply keeps_indexes_refl].
  simpl. split; [|split; auto].
  unfold contact_unique. simpl. rewrite map_map.
  erewrite map_ext; [intros H; exact H|].
  intros a. simpl. destruct (Nat.eqb (c_id a) id); reflexivity.
Qed.

Lemma indexes_conversation_create i c st :
  respects keeps_indexes (prisma.conversation_create i c st).
Proof.
  apply indexes_after_db_call. intros w.
  destruct (existsb _ _); apply keeps_indexes_same; reflexivity.
Qed.

Lemma indexes_conversation_update id f :
  respects keeps_indexes (prisma.conversation_update id f).
Proof.
  apply indexes_after_db_call. intros w.
  destruct (find _ _); apply keeps_indexes_same; reflexivity.
Qed.

Lemma indexes_message_create data :
  respects keeps_indexes (prisma.message_create data).
Proof.
  apply indexes_after_db_call. intros w. cbv zeta.
  destruct (existsb _ (messages w)) eqn:E; [apply keeps_indexes_refl|].
  simpl. split; [auto|]. split; [|auto].
  unfold message_unique. simpl. intros Hnd. apply NoDup_map_snoc; [exact Hnd|].
  intros x Hin Hx.
  apply (proj2 (message_key_pair (m_instanceId (data (next_id w)))
                                 (m_messageId (data (next_id w))) x)) in Hx.
  rewrite (existsb_false_In _ _ _ E Hin) in Hx. discriminate.
Qed.

Lemma message_pair_statuses (g : Message -> bool) s l :
  map message_pair (map (fun m => if g m then prisma.with_status s m else m) l)
  = map message_pair l.
Proof.
  rewrite map_map. apply map_ext. intros a. destruct (g a); reflexivity.
Qed.

Lemma indexes_message_update_status id s :
  respects keeps_indexes (prisma.message_update_status id s).
Proof.
  apply indexes_after_db_call. intros w.
  destruct (existsb _ _); [|apply keeps_indexes_refl].
  simpl. split; [auto|]. split; [|auto].
  unfold message_unique. simpl. rewrite message_pair_statuses. auto.
Qed.

Lemma indexes_message_updateMany_status cond s :
  respects keeps_indexes (prisma.message_updateMany_status cond s).
Proof.
  apply indexes_after_db_call. intros w.
  simpl. split; [auto|]. split; [|auto].
  unfold message_unique. simpl. rewrite message_pair_statuses. auto.
Qed.

Lemma indexes_instance_update id s q :
  respects keeps_indexes (prisma.instance_update id (set_instance_status s q)).
Proof.
  apply indexes_after_db_call. intros w.
  destruct (existsb _ _); [|apply keeps_indexes_refl].
  simpl. split; [auto|]. split; [auto|].
  unfold instance_names_unique. simpl. rewrite map_map.
  erewrite map_ext; [intros H; exact H|].
  intros a. simpl. destruct (Nat.eqb (i_id a) id); reflexivity.
Qed.

Lemma indexes_emit t name p : respects keeps_indexes (emit t name p).
Proof. intros w. apply keeps_indexes_same; reflexivity. Qed.

Lemma indexes_gateway_call c : respects keeps_indexes (gateway_call c).
Proof.
  intros w. apply keeps_indexes_same; unfold gateway_call;
    destruct (gw_faults w) as [|[] f]; reflexivity.
Qed.

(** X1: whatever the payload and whichever database or gateway calls
    reject, a webhook and a mark-as-read call keep the unique indexes on
    (instance, remoteJid) of contacts, on (instance, external id) of messages
    and on the name of instances. *)
Theorem unique_indexes_kept :
  (forall payload w, keeps_indexes w (snd (handleWebhook payload w))) /\
  (forall id w, keeps_indexes w (snd (markAsRead id w))).
Proof.
  split.
  - intros payload.
    apply (respects_handleWebhook _ keeps_indexes_refl keeps_indexes_trans
             indexes_db_call indexes_contact_create indexes_contact_update
             indexes_conversation_create
             (fun id f _ => indexes_conversation_update id f)
             indexes_message_create indexes_message_update_status
             indexes_instance_update (fun t n p _ => indexes_emit t n p)).
  - intros id.
    apply (respects_markAsRead _ keeps_indexes_refl keeps_indexes_trans
             indexes_db_call
             (fun id f _ => indexes_conversation_update id f)
             indexes_message_updateMany_status indexes_gateway_call).
Qed.

Lemma unique_indexes_kept_witness :
  message_unique
    (snd (handleWebhook (Sample.upsert_of [Some Sample.msg1; Some Sample.msg1])
                        Sample.w0)).
Proof.
  apply (proj1 unique_indexes_kept
               (Sample.upsert_of [Some Sample.msg1; Some Sample.msg1]) Sample.w0).
  constructor.
Defined.

(** ** What the handlers never touch *)

(** Runs one step of the database client, the socket server or the gateway
    on any world and compares a field before and after. *)
Ltac field_kept :=
  intros;
  unfold prisma.contact_create, prisma.contact_update_pushName,
    prisma.conversation_create, prisma.conversation_update,
    prisma.message_create, prisma.message_update_status,
    prisma.message_updateMany_status, prisma.instance_update,
    instance_findUnique_id, instance_create, instance_delete, cascade,
    emit, gateway_call, gateway_answer, bind, db_call;
  cbv zeta;
  repeat match goal with
         | |- context [match db_faults ?w with _ => _ end] =>
             destruct (db_faults w) as [|[] ?]
         | |- context [match gw_faults ?w with _ => _ end] =>
             destruct (gw_faults w) as [|[] ?]
         end;
  simpl;
  repeat match goal with
         | |- context [match ?x with _ => _ end] => destruct x; simpl
         end;
  try reflexivity.

Lemma emits_refl w : emits_channel_events w w.
Proof. exists []. rewrite app_nil_r. split; reflexivity. Qed.

Lemma emits_trans w1 w2 w3 :
  emits_channel_events w1 w2 -> emits_channel_events w2 w3 ->
  emits_channel_events w1 w3.
Proof.
  intros (e1 & E1 & F1) (e2 & E2 & F2). exists (e1 ++ e2)%list.
  rewrite E2, E1, app_assoc, forallb_app, F1, F2. split; reflexivity.
Qed.

Lemma emits_same w w' : emitted w' = emitted w -> emits_channel_events w w'.
Proof.
  intros H. exists []. rewrite app_nil_r. split; [exact H | reflexivity].
Qed.

Lemma emits_emit t name p :
  channel_event {| ev_topic := t; ev_name := name; ev_payload := p |} = true ->
  respects emits_channel_events (emit t name p).
Proof.
  intros H w. exists [{| ev_topic := t; ev_name := name; ev_payload := p |}].
  split; [reflexivity|]. simpl. rewrite H. reflexivity.
Qed.

(** X2: whatever the payload and the faults, a webhook only appends to the
    emissions, and only events of the channel: [message:new] with a message
    on a conversation room or with a notification on the broadcast,
    [conversation:update], [instance:status] and [instance:qrcode] on the
    broadcast, [message:update] with a status delta on a conversation room;
    a mark-as-read call emits nothing. *)
Theorem webhook_emits_channel_events :
  (forall payload w, emits_channel_events w (snd (handleWebhook payload w))) /\
  (forall id w, emitted (snd (markAsRead id w)) = emitted w).
Proof.
  split.
  - intros payload.
    apply (respects_handleWebhook _ emits_refl emits_trans);
      try exact emits_emit; intros; intros w; apply emits_same; revert w;
      field_kept.
  - intros id.
    apply (respects_markAsRead (fun w w' => emitted w' = emitted w));
      try (intros; congruence); intros; intros w; revert w; field_kept.
Qed.

Lemma only_statuses_refl w : only_statuses w w.
Proof. repeat split. Qed.

Lemma only_statuses_trans w1 w2 w3 :
  only_statuses w1 w2 -> only_statuses w2 w3 -> only_statuses w1 w3.
Proof.
  intros (a1 & a2 & a3 & a4 & a5) (b1 & b2 & b3 & b4 & b5).
  repeat split; congruence.
Qed.

Lemma without_status_statuses (g : Message -> bool) s l :
  map without_status (map (fun m => if g m then prisma.with_status s m else m) l)
  = map without_status l.
Proof.
  rewrite map_map. apply map_ext. intros a. destruct (g a); reflexivity.
Qed.

(** X3: whatever the batch and the faults, the status reconciler changes
    nothing in the store but the status column of messages: no message is
    added, removed or otherwise rewritten, no instance, contact or
    conversation is touched, and the gateway is not called. *)
Theorem handleMessagesUpdate_only_statuses name items w :
  only_statuses w (snd (handleMessagesUpdate name items w)).
Proof.
  revert w.
  apply (respects_handleMessagesUpdate _ only_statuses_refl only_statuses_trans).
  - intros w. unfold db_call. destruct (db_faults w) as [|[] f]; repeat split.
  - intros id s w. unfold prisma.message_update_status, bind, db_call.
    destruct (db_faults w) as [|[] f]; simpl; try (repeat split; fail);
      destruct (existsb _ _); repeat split; simpl;
      apply without_status_statuses.
  - intros t n p _ w. repeat split.
Qed.

Lemma gateway_untouched_refl w : gateway_untouched w w.
Proof. split; reflexivity. Qed.

Lemma gateway_untouched_trans w1 w2 w3 :
  gateway_untouched w1 w2 -> gateway_untouched w2 w3 -> gateway_untouched w1 w3.
Proof. intros [a b] [a' b']. split; congruence. Qed.

(** X4: whatever the payload and the faults, a webhook makes no call to the
    gateway and consumes nothing of its fault schedule. *)
Theorem handleWebhook_gateway_untouched payload w :
  gateway_untouched w (snd (handleWebhook payload w)).
Proof.
  revert w.
  apply (respects_handleWebhook _ gateway_untouched_refl gateway_untouched_trans);
    intros; intros w; split; revert w; field_kept.
Qed.

(** ** The normalizer and the preview *)

Lemma truthy_raw o s : Js.truthy o = true -> raw o = Some (Raw s) -> s <> "".
Proof.
  destruct o as [t|]; simpl; [|discriminate].
  intros Ht E. inversion E; subst. intros ->. discriminate.
Qed.

Lemma or_null_raw o s : raw (Js.or_null o) = Some (Raw s) -> s <> "".
Proof.
  unfold Js.or_null, Js.or_else. destruct (Js.truthy o) eqn:T.
  - apply truthy_raw, T.
  - discriminate.
Qed.

(** Walks the precedence of [getMessageContent] on any payload. *)
Ltac by_variant :=
  unfold getMessageContent;
  repeat (match goal with
          | |- context [match ?x with _ => _ end] => destruct x eqn:?
          end; simpl; auto).

(** X5: a normalized payload carries a media url, mime type or file name
    only with one of the five media types, a file name only as a DOCUMENT,
    and a text content next to media only as the caption of an IMAGE or a
    VIDEO. *)
Theorem getMessageContent_media md :
  let n := getMessageContent md in
  (n_mediaUrl n <> None \/ n_mediaMimeType n <> None \/ n_mediaFileName n <> None ->
   is_media_type (n_type n) = true) /\
  (n_mediaFileName n <> None -> n_type n = DOCUMENT) /\
  (is_media_type (n_type n) = true -> n_content n <> None ->
   n_type n = IMAGE \/ n_type n = VIDEO).
Proof.
  cbv zeta. split; [|split].
  - by_variant; intros [H|[H|H]]; congruence.
  - by_variant; congruence.
  - by_variant; intros; congruence.
Qed.

Lemma getMessageContent_media_witness :
  is_media_type (n_type (getMessageContent voice_note)) = true.
Proof.
  apply (proj1 (getMessageContent_media voice_note)). left. discriminate.
Defined.

(** X6: the content of a normalized payload is never the empty string,
    except for a REACTION (whose empty text withdraws the reaction): an
    empty text or caption is stored as [null]. *)
Theorem getMessageContent_content_not_empty md s :
  n_content (getMessageContent md) = Some (Raw s) ->
  s <> "" \/ n_type (getMessageContent md) = REACTION.
Proof.
  by_variant; intros H; try discriminate; try (right; reflexivity); left;
    first [ exact (or_null_raw _ _ H)
          | match goal with
            | T : Js.truthy ?o = true |- _ => exact (truthy_raw o s T H)
            end ].
Qed.

Lemma getMessageContent_content_not_empty_witness :
  "Oi" <> "" \/ n_type (getMessageContent Sample.msg1) = REACTION.
Proof.
  exact (getMessageContent_content_not_empty Sample.msg1 "Oi" eq_refl).
Defined.

(** X7: the preview of a payload with a plain text is that text; the
    preview of any payload that is neither TEXT nor REACTION is a bracketed
    placeholder, never empty; an image with a caption and no text shows the
    placeholder followed by the caption. *)
Theorem preview_of_payload md m :
  message md = Some m ->
  (forall s, conversation m = Some s -> s <> "" -> preview_of md = s) /\
  (n_type (getMessageContent md) <> TEXT ->
   n_type (getMessageContent md) <> REACTION ->
   exists rest, preview_of md = String "["%char rest) /\
  (forall im c,
     Js.truthy (conversation m) = false -> Js.truthy (extended_text m) = false ->
     imageMessage m = Some im -> image_caption im = Some c -> c <> "" ->
     preview_of md = "[imagem] " ++ c).
Proof.
  intros Hm. unfold preview_of. split; [|split].
  - intros s Hs Hne. unfold getMessageContent. rewrite Hm.
    assert (T : Js.truthy (conversation m) = true).
    { rewrite Hs. simpl. apply String.eqb_neq in Hne. rewrite Hne. reflexivity. }
    rewrite T, Hs. simpl. apply String.eqb_neq in Hne. rewrite Hne. reflexivity.
  - unfold getMessageContent. rewrite Hm.
    destruct (Js.truthy (conversation m)); simpl; [congruence|].
    destruct (Js.truthy (extended_text m)); simpl; [congruence|].
    destruct (imageMessage m) as [im|]; simpl.
    { intros _ _. destruct (content_truthy _); eexists; reflexivity. }
    destruct (videoMessage m) as [vm|]; simpl.
    { intros _ _. destruct (content_truthy _); eexists; reflexivity. }
    destruct (audioMessage m); simpl; [intros; eexists; reflexivity|].
    destruct (documentMessage m); simpl; [intros; eexists; reflexivity|].
    destruct (stickerMessage m); simpl; [intros; eexists; reflexivity|].
    destruct (locationMessage m); simpl; [intros; eexists; reflexivity|].
    destruct (contactMessage m); simpl; [intros; eexists; reflexivity|].
    destruct (reactionMessage m); simpl; congruence.
  - intros im c Tc Te Him Hc Hne. unfold getMessageContent.
    rewrite Hm, Tc, Te, Him. simpl.
    unfold Js.or_null, Js.or_else. rewrite Hc. simpl.
    apply String.eqb_neq in Hne. rewrite Hne. simpl. rewrite Hne. reflexivity.
Qed.

Lemma preview_of_payload_witness : preview_of Sample.msg1 = "Oi".
Proof.
  apply (proj1 (preview_of_payload Sample.msg1 (Sample.text_body "Oi") eq_refl)
               "Oi" eq_refl).
  discriminate.
Defined.

(** ** Connection and pairing state *)

Lemma find_instances_with name id f inst w :
  (forall i, i_name (f i) = i_name i) ->
  find (fun i => i_name i =? name) (instances w) = Some inst ->
  i_id inst = id ->
  find (fun i => i_name i =? name) (instances_with id f w) = Some (f inst).
Proof.
  intros Hf Hi Hid. unfold instances_with. rewrite find_map_keep.
  - rewrite Hi. simpl. rewrite Hid, Nat.eqb_refl. reflexivity.
  - intros x. destruct (Nat.eqb (i_id x) id); [rewrite Hf|]; reflexivity.
Qed.

Lemma handleConnectionUpdate_known name d inst w :
  db_reliable w ->
  find (fun i => i_name i =? name) (instances w) = Some inst ->
  handleConnectionUpdate name (Some d) w =
  (Ok tt,
   instance_written inst
     (set_instance_status (connection_status (state d))
        (if InstanceStatus_eqb (connection_status (state d)) CONNECTED then None
         else i_qrCode inst))
     (status_event inst name (connection_status (state d))) w).
Proof.
  intros Hw Hi. unfold handleConnectionUpdate.
  rewrite (run_bind _ _ _ _ _ (instance_findUnique_run w Hw _)), Hi.
  destruct (found_by_id _ i_id _ _ Hi) as [y Hy].
  rewrite (run_bind _ _ _ _ _ (instance_update_run w Hw _ _ y Hy)).
  reflexivity.
Qed.

Lemma handleQrCodeUpdate_known name b inst w :
  db_reliable w -> b <> "" ->
  find (fun i => i_name i =? name) (instances w) = Some inst ->
  handleQrCodeUpdate name (Some (qrcode_item b)) w =
  (Ok tt,
   instance_written inst (set_instance_status QRCODE (Some b))
                    (qrcode_event inst name b) w).
Proof.
  intros Hw Hb Hi. unfold handleQrCodeUpdate.
  rewrite (run_bind _ _ _ _ _ (instance_findUnique_run w Hw _)), Hi. simpl.
  apply String.eqb_neq in Hb. rewrite Hb. simpl.
  destruct (found_by_id _ i_id _ _ Hi) as [y Hy].
  rewrite (run_bind _ _ _ _ _ (instance_update_run w Hw _ _ y Hy)).
  reflexivity.
Qed.

(** X8: a connection update for a known instance stores CONNECTED for
    "open", CONNECTING for "connecting" and DISCONNECTED for anything else,
    clears the stored pairing code exactly when it stores CONNECTED, and
    broadcasts one [instance:status]; for an unknown instance it does
    nothing, whatever the data. *)
Theorem handleConnectionUpdate_effect name w :
  db_reliable w ->
  (find (fun i => i_name i =? name) (instances w) = None ->
   forall data, handleConnectionUpdate name data w = (Ok tt, w)) /\
  (forall inst d,
     find (fun i => i_name i =? name) (instances w) = Some inst ->
     let s := connection_status (state d) in
     let w' := snd (handleConnectionUpdate name (Some d) w) in
     find (fun i => i_name i =? name) (instances w')
       = Some (set_instance_status s
                 (if InstanceStatus_eqb s CONNECTED then None else i_qrCode inst)
                 inst) /\
     emitted w' = (emitted w ++ [status_event inst name s])%list /\
     contacts w' = contacts w /\ conversations w' = conversations w /\
     messages w' = messages w /\
     (state d = Some "open" -> s = CONNECTED) /\
     (state d = Some "connecting" -> s = CONNECTING) /\
     (state d <> Some "open" -> state d <> Some "connecting" -> s = DISCONNECTED)).
Proof.
  intros Hw. split.
  - intros Hi data. unfold handleConnectionUpdate.
    rewrite (run_bind _ _ _ _ _ (instance_findUnique_run w Hw _)), Hi.
    reflexivity.
  - intros inst d Hi. cbv zeta.
    rewrite (handleConnectionUpdate_known name d inst w Hw Hi). simpl.
    split; [apply (find_instances_with name); auto|].
    repeat split.
    + intros ->. reflexivity.
    + intros ->. reflexivity.
    + intros n1 n2. unfold connection_status.
      destruct (state d) as [s|]; [|reflexivity].
      destruct (String.eqb_spec s "open"); [congruence|].
      destruct (String.eqb_spec s "connecting"); [congruence|]. reflexivity.
Qed.

Lemma handleConnectionUpdate_effect_witness :
  find (fun i => i_name i =? "shop1")
       (instances (snd (handleConnectionUpdate "shop1"
                          (Some (connection_item "close")) Sample.w0)))
  = Some (set_instance_status DISCONNECTED None Sample.shop1).
Proof.
  exact (proj1 (proj2 (handleConnectionUpdate_effect "shop1" Sample.w0 eq_refl)
                      Sample.shop1 (connection_item "close") eq_refl)).
Defined.

(** X9: a pairing update with a non-empty code stores the code with status
    QRCODE and broadcasts one [instance:qrcode]; without a code, or for an
    unknown instance, it writes and emits nothing. *)
Theorem handleQrCodeUpdate_effect name w :
  db_reliable w ->
  (find (fun i => i_name i =? name) (instances w) = None ->
   forall data, handleQrCodeUpdate name data w = (Ok tt, w)) /\
  (forall d, Js.truthy (match qrcode d with Some q => base64 q | None => None end)
             = false ->
             handleQrCodeUpdate name (Some d) w = (Ok tt, w)) /\
  (forall inst b,
     find (fun i => i_name i =? name) (instances w) = Some inst -> b <> "" ->
     let w' := snd (handleQrCodeUpdate name (Some (qrcode_item b)) w) in
     find (fun i => i_name i =? name) (instances w')
       = Some (set_instance_status QRCODE (Some b) inst) /\
     emitted w' = (emitted w ++ [qrcode_event inst name b])%list /\
     contacts w' = contacts w /\ conversations w' = conversations w /\
     messages w' = messages w).
Proof.
  intros Hw. split; [|split].
  - intros Hi data. unfold handleQrCodeUpdate.
    rewrite (run_bind _ _ _ _ _ (instance_findUnique_run w Hw _)), Hi.
    reflexivity.
  - intros d Hd. unfold handleQrCodeUpdate.
    rewrite (run_bind _ _ _ _ _ (instance_findUnique_run w Hw _)).
    destruct (find _ (instances w)); [|reflexivity].
    destruct (qrcode d) as [q|]; [|reflexivity].
    destruct (base64 q) as [b|]; [|reflexivity].
    rewrite Hd. reflexivity.
  - intros inst b Hi Hb. cbv zeta.
    rewrite (handleQrCodeUpdate_known name b inst w Hw Hb Hi). simpl.
    split; [apply (find_instances_with name); auto|].
    repeat split.
Qed.

Lemma handleQrCodeUpdate_effect_witness :
  find (fun i => i_name i =? "shop1")
       (instances (snd (handleQrCodeUpdate "shop1" (Some (qrcode_item "iVBOR"))
                                           Sample.w0)))
  = Some (set_instance_status QRCODE (Some "iVBOR") Sample.shop1).
Proof.
  apply (proj2 (proj2 (handleQrCodeUpdate_effect "shop1" Sample.w0 eq_refl))
               Sample.shop1 "iVBOR" eq_refl).
  discriminate.
Defined.

(** X10: a pairing code delivered by webhook and then a connection update
    "open": both are answered 200, the instance ends CONNECTED with no
    pairing code stored, and the broadcast saw the code and then the
    status. *)
Theorem pairing_then_open name inst b w :
  db_reliable w -> b <> "" ->
  find (fun i => i_name i =? name) (instances w) = Some inst ->
  exists w1 w2,
    handleWebhook {| event := Some "qrcode.updated"; instance := name;
                     data := DValue (Some (qrcode_item b)) |} w
      = (Ok received_200, w1) /\
    handleWebhook {| event := Some "connection.update"; instance := name;
                     data := DValue (Some (connection_item "open")) |} w1
      = (Ok received_200, w2) /\
    find (fun i => i_name i =? name) (instances w2)
      = Some (set_instance_status CONNECTED None inst) /\
    emitted w2 = (emitted w ++ [qrcode_event inst name b;
                                status_event inst name CONNECTED])%list.
Proof.
  intros Hw Hb Hi.
  pose proof (handleQrCodeUpdate_known name b inst w Hw Hb Hi) as R1.
  set (w1 := instance_written inst (set_instance_status QRCODE (Some b))
                              (qrcode_event inst name b) w) in *.
  assert (Hw1 : db_reliable w1) by exact Hw.
  assert (Hi1 : find (fun i => i_name i =? name) (instances w1)
                = Some (set_instance_status QRCODE (Some b) inst)).
  { apply (find_instances_with name); auto. }
  pose proof (handleConnectionUpdate_known name (connection_item "open") _ w1 Hw1 Hi1)
    as R2.
  exists w1. eexists. split; [|split; [|split]].
  - unfold handleWebhook, try_catch, webhook_try, dispatch. simpl.
    rewrite (run_bind _ _ _ _ _ R1). reflexivity.
  - unfold handleWebhook, try_catch, webhook_try, dispatch. simpl.
    rewrite (run_bind _ _ _ _ _ R2). reflexivity.
  - change (find (fun i => i_name i =? name)
                 (instances_with (i_id inst) (set_instance_status CONNECTED None) w1)
            = Some (set_instance_status CONNECTED None
                      (set_instance_status QRCODE (Some b) inst))).
    apply (find_instances_with name); auto.
  - simpl. rewrite <- app_assoc. reflexivity.
Qed.

Lemma pairing_then_open_witness :
  exists w1 w2,
    handleWebhook {| event := Some "qrcode.updated"; instance := "shop1";
                     data := DValue (Some (qrcode_item "iVBOR")) |} Sample.w0
      = (Ok received_200, w1) /\
    handleWebhook {| event := Some "connection.update"; instance := "shop1";
                     data := DValue (Some (connection_item "open")) |} w1
      = (Ok received_200, w2) /\
    find (fun i => i_name i =? "shop1") (instances w2)
      = Some (set_instance_status CONNECTED None Sample.shop1).
Proof.
  destruct (pairing_then_open "shop1" Sample.shop1 "iVBOR" Sample.w0 eq_refl
              ltac:(discriminate) eq_refl) as (w1 & w2 & R1 & R2 & F & _).
  exists w1, w2. repeat split; assumption.
Defined.

(** ** The router *)

Lemma normalizeEvent_cons c r :
  normalizeEvent (String c r) = String (normalize_char c) (normalizeEvent r).
Proof. reflexivity. Qed.

Lemma normalize_char_canonical c :
  normalize_char (normalize_char c) = normalize_char c /\
  normalize_char c <> "."%char /\
  Js.upper_ascii (normalize_char c) = normalize_char c.
Proof.
  destruct c as [[] [] [] [] [] [] [] []]; repeat split; discriminate.
Qed.

(** X11: the normalized event name is canonical: normalizing it again
    changes nothing, it holds no dot and no lower-case ASCII letter, and the
    webhook treats an event name and its normalized form alike. *)
Theorem normalizeEvent_canonical ev :
  normalizeEvent (normalizeEvent ev) = normalizeEvent ev /\
  Forall (fun c => c <> "."%char /\ Js.upper_ascii c = c)
         (list_ascii_of_string (normalizeEvent ev)) /\
  (forall name d,
     handleWebhook {| event := Some (normalizeEvent ev); instance := name;
                      data := d |}
     = handleWebhook {| event := Some ev; instance := name; data := d |}).
Proof.
  assert (I : normalizeEvent (normalizeEvent ev) = normalizeEvent ev).
  { induction ev as [|c r IH]; [reflexivity|].
    rewrite !normalizeEvent_cons, IH.
    rewrite (proj1 (normalize_char_canonical c)). reflexivity. }
  split; [exact I|]. split.
  - clear I. induction ev as [|c r IH]; [constructor|].
    rewrite normalizeEvent_cons. simpl. constructor; [|exact IH].
    destruct (normalize_char_canonical c) as (_ & D & U). split; assumption.
  - intros name d. unfold handleWebhook, webhook_try. simpl. rewrite I.
    reflexivity.
Qed.



Lemma upsertItem_unknown_instance name md w :
  db_reliable w ->
  find (fun i => i_name i =? name) (instances w) = None ->
  upsertItem name (Some md) w = (Ok tt, w).
Proof.
  intros Hw Hi. unfold upsertItem.
  destruct (key md) as [k|]; [|reflexivity].
  destruct (routable k); [|reflexivity].
  rewrite (run_bind _ _ _ _ _ (instance_findUnique_run w Hw _)), Hi.
  reflexivity.
Qed.

Lemma updateItem_unknown_instance name u w :
  db_reliable w ->
  find (fun i => i_name i =? name) (instances w) = None ->
  updateItem name (Some u) w = (Ok tt, w).
Proof.
  intros Hw Hi. unfold updateItem.
  destruct (key u) as [k|]; [|reflexivity].
  destruct (key_id k =? ""); [reflexivity|].
  rewrite (run_bind _ _ _ _ _ (instance_findUnique_run w Hw _)), Hi.
  reflexivity.
Qed.

Lemma handleWebhook_unknown_instance ev name d w :
  db_reliable w ->
  find (fun i => i_name i =? name) (instances w) = None ->
  no_null d ->
  handleWebhook {| event := Some ev; instance := name; data := d |} w
  = (Ok received_200, w).
Proof.
  intros Hw Hi Hd.
  assert (Up : forall items, no_null_item items ->
                 handleMessagesUpsert name items w = (Ok tt, w)).
  { intros items Hn. induction Hn as [|i items Hne _ IH]; [reflexivity|].
    destruct i as [md|]; [|congruence]. simpl.
    rewrite (run_bind _ _ _ _ _ (upsertItem_unknown_instance name md w Hw Hi)).
    exact IH. }
  assert (Ud : forall items, no_null_item items ->
                 handleMessagesUpdate name items w = (Ok tt, w)).
  { intros items Hn. induction Hn as [|i items Hne _ IH]; [reflexivity|].
    destruct i as [u|]; [|congruence]. simpl.
    rewrite (run_bind _ _ _ _ _ (updateItem_unknown_instance name u w Hw Hi)).
    exact IH. }
  unfold handleWebhook, try_catch, webhook_try, dispatch. simpl.
  destruct (_ =? "MESSAGES_UPSERT").
  { rewrite (run_bind _ _ _ _ _ (Up _ (no_null_as_array d Hd))). reflexivity. }
  destruct (_ =? "MESSAGES_UPDATE").
  { rewrite (run_bind _ _ _ _ _ (Ud _ (no_null_as_array d Hd))). reflexivity. }
  assert (Cn : handleConnectionUpdate name (as_object d) w = (Ok tt, w)).
  { unfold handleConnectionUpdate.
    rewrite (run_bind _ _ _ _ _ (instance_findUnique_run w Hw _)), Hi.
    reflexivity. }
  assert (Qr : handleQrCodeUpdate name (as_object d) w = (Ok tt, w)).
  { unfold handleQrCodeUpdate.
    rewrite (run_bind _ _ _ _ _ (instance_findUnique_run w Hw _)), Hi.
    reflexivity. }
  destruct (_ =? "CONNECTION_UPDATE").
  { rewrite (run_bind _ _ _ _ _ Cn). reflexivity. }
  destruct (_ || _).
  { rewrite (run_bind _ _ _ _ _ Qr). reflexivity. }
  destruct (_ || _); reflexivity.
Qed.

(** X13: on a reliable database, a webhook that names an instance the store
    does not know is answered 200 and stores and emits nothing, for every
    event and every data without a [null]. *)
Theorem unknown_instance_ignored ev name d w :
  db_reliable w ->
  find (fun i => i_name i =? name) (instances w) = None ->
  no_null d ->
  handleWebhook {| event := Some ev; instance := name; data := d |} w
  = (Ok received_200, w).
Proof. exact (handleWebhook_unknown_instance ev name d w). Qed.

Lemma unknown_instance_ignored_witness :
  handleWebhook {| event := Some "messages.upsert"; instance := "shop2";
                   data := DArray [Some Sample.msg1; Some Sample.msg2] |}
                Sample.w0
  = (Ok received_200, Sample.w0).
Proof.
  apply (unknown_instance_ignored "messages.upsert" "shop2"
           (DArray [Some Sample.msg1; Some Sample.msg2]) Sample.w0 eq_refl eq_refl).
  repeat constructor; discriminate.
Defined.

(** ** The contact of an upsert *)

Lemma findOrCreateContact_contacts inst md jid w :
  db_reliable w ->
  contacts (snd (findOrCreateContact inst md jid w)) =
  match find (contact_key (i_id inst) jid) (contacts w) with
  | None => (contacts w ++ [new_contact inst md jid (next_id w)])%list
  | Some c =>
      if backfills md c then contacts_named (c_id c) (pushName md) w
      else contacts w
  end.
Proof.
  intros Hw. unfold findOrCreateContact. cbv zeta.
  rewrite (run_bind _ _ _ _ _ (contact_findUnique_run w Hw _ _)).
  destruct (find (contact_key (i_id inst) jid) (contacts w)) as [c|] eqn:E.
  - unfold backfills. destruct (_ && _); [|reflexivity].
    destruct (found_by_id _ c_id _ _ E) as [y Hy].
    rewrite (contact_update_pushName_run w Hw _ _ y Hy). reflexivity.
  - rewrite (contact_create_run w Hw _ _ _ _ _ E). reflexivity.
Qed.

Lemma upsertFor_contacts inst md k w :
  db_reliable w ->
  contacts (snd (upsertFor inst md k w))
  = contacts (snd (findOrCreateContact inst md (remoteJid k) w)).
Proof.
  intros Hw. unfold upsertFor.
  destruct (findOrCreateContact_run inst md (remoteJid k) w Hw)
    as (c & w1 & R1 & F1 & _ & Ms1 & _).
  rewrite (run_bind _ _ _ _ _ R1), R1. simpl.
  pose proof (frame_reliable _ _ F1 Hw) as Hw1.
  destruct (findOrCreateConversation_run inst c w1 Hw1)
    as (cv & w2 & R2 & F2 & Ct2 & Ms2 & _ & Fcv2 & _).
  rewrite (run_bind _ _ _ _ _ R2).
  pose proof (frame_reliable _ _ F2 Hw1) as Hw2.
  rewrite (run_bind _ _ _ _ _ (message_findUnique_run w2 Hw2 _ _)).
  destruct (find (message_key (i_id inst) (key_id k)) (messages w2)) eqn:Em.
  - simpl. exact Ct2.
  - destruct (storeAndFanOut_run inst c cv md k w2 _ _ Hw2 Em Fcv2)
      as (w3 & upd & R3 & _ & Ct3 & _).
    rewrite R3. simpl. congruence.
Qed.

(** X14: one routable item for a known instance, on a reliable database:
    for an unknown jid it appends one contact, with the jid, the phone
    number stripped of the WhatsApp suffixes, the push name or else the
    phone number as name, and the group flag of a [@g.us] jid; a known
    contact that has a name keeps every column; one without a name takes the
    push name of the item when there is one. *)
Theorem upsert_contact_resolution name md k inst w :
  db_reliable w ->
  key md = Some k -> routable k = true ->
  find (fun i => i_name i =? name) (instances w) = Some inst ->
  let w' := snd (handleMessagesUpsert name [Some md] w) in
  (find (contact_key (i_id inst) (remoteJid k)) (contacts w) = None ->
   contacts w'
   = (contacts w ++ [new_contact inst md (remoteJid k) (next_id w)])%list) /\
  (forall c,
     find (contact_key (i_id inst) (remoteJid k)) (contacts w) = Some c ->
     (Js.truthy (c_pushName c) = true \/ Js.truthy (pushName md) = false ->
      contacts w' = contacts w) /\
     (Js.truthy (c_pushName c) = false -> Js.truthy (pushName md) = true ->
      contacts w' = contacts_named (c_id c) (pushName md) w /\
      find (contact_key (i_id inst) (remoteJid k)) (contacts w')
        = Some (prisma.with_pushName (pushName md) c))).
Proof.
  intros Hw Hk Hr Hi. cbv zeta.
  assert (E : contacts (snd (handleMessagesUpsert name [Some md] w))
              = contacts (snd (findOrCreateContact inst md (remoteJid k) w))).
  { destruct (upsertFor_run inst md k w Hw) as (w1 & R & _).
    pose proof R as R'.
    rewrite <- (upsertItem_upsertFor name md k inst w Hw Hk Hr Hi) in R'.
    rewrite (handleMessagesUpsert_single _ _ _ _ R').
    rewrite <- (upsertFor_contacts inst md k w Hw), R. reflexivity. }
  rewrite E, (findOrCreateContact_contacts inst md (remoteJid k) w Hw).
  split.
  - intros ->. reflexivity.
  - intros c Hc. rewrite Hc. unfold backfills. split.
    + intros [T|T]; rewrite T; [rewrite andb_false_r|]; reflexivity.
    + intros T1 T2. rewrite T1, T2. simpl. split; [reflexivity|].
      unfold contacts_named. rewrite find_map_keep.
      * rewrite Hc. simpl. rewrite Nat.eqb_refl. reflexivity.
      * intros x. destruct (Nat.eqb (c_id x) (c_id c)); reflexivity.
Qed.

Lemma upsert_contact_resolution_witness :
  contacts (snd (handleMessagesUpsert "shop1" [Some Sample.msg1] Sample.w0))
  = [new_contact Sample.shop1 Sample.msg1 Sample.ana 2].
Proof.
  exact (proj1 (upsert_contact_resolution "shop1" Sample.msg1
                  {| remoteJid := Sample.ana; fromMe := false; key_id := "MSG1" |}
                  Sample.shop1 Sample.w0 eq_refl eq_refl eq_refl eq_refl)
               eq_refl).
Defined.

(** ** Mark as read, again *)

Lemma read_is_not_unread id m :
  unread_inbound id (if unread_inbound id m then prisma.with_status READ m else m)
  = false.
Proof.
  destruct (unread_inbound id m) eqn:U; [|exact U].
  unfold unread_inbound. simpl. rewrite andb_false_r. reflexivity.
Qed.

Lemma nothing_unread_after id l :
  filter (unread_inbound id)
         (map (fun m => if unread_inbound id m then prisma.with_status READ m else m) l)
  = [].
Proof.
  induction l as [|m l IH]; simpl; [reflexivity|].
  rewrite read_is_not_unread. exact IH.
Qed.

Lemma receipts_none id cv w :
  filter (unread_inbound id) (messages w) = [] -> receipts id cv w = [].
Proof.
  intros H. unfold receipts, included_messages. rewrite H. simpl.
  destruct (prisma.instance_byId _ _); [|reflexivity].
  rewrite andb_false_r. reflexivity.
Qed.

(** X15: on a reliable database a second mark-as-read call on a
    conversation changes no message and no conversation and sends the
    gateway no receipt: after the first call nothing of the conversation is
    unread. *)
Theorem markAsRead_twice id cv w :
  db_reliable w ->
  find (fun c => Nat.eqb (cv_id c) id) (conversations w) = Some cv ->
  exists w1 w2,
    markAsRead id w = (Ok marked_as_read_200, w1) /\
    markAsRead id w1 = (Ok marked_as_read_200, w2) /\
    filter (unread_inbound id) (messages w1) = [] /\
    messages w2 = messages w1 /\ conversations w2 = conversations w1 /\
    gw_calls w2 = gw_calls w1.
Proof.
  intros Hw Hc.
  destruct (markAsRead_run id cv w Hw Hc)
    as (w1 & R1 & Hw1 & _ & _ & Ms1 & Cv1 & _ & _).
  assert (Hc1 : find (fun c => Nat.eqb (cv_id c) id) (conversations w1)
                = Some (with_unreadCount 0 cv)).
  { apply (markAsRead_resets id cv w w1 Hc Cv1); [reflexivity | exact Hc]. }
  destruct (markAsRead_run id _ w1 Hw1 Hc1)
    as (w2 & R2 & _ & _ & _ & Ms2 & Cv2 & _ & Gw2).
  assert (Un : filter (unread_inbound id) (messages w1) = []).
  { rewrite Ms1. apply nothing_unread_after. }
  exists w1, w2. split; [exact R1|]. split; [exact R2|]. split; [exact Un|].
  split; [|split].
  - rewrite Ms2, Ms1, map_map. apply map_ext. intros m.
    rewrite read_is_not_unread. reflexivity.
  - rewrite Cv2, Cv1, map_map. apply map_ext. intros c. simpl.
    destruct (Nat.eqb (cv_id c) id) eqn:E; simpl; rewrite E; reflexivity.
  - rewrite Gw2, (receipts_none _ _ _ Un). apply app_nil_r.
Qed.

Lemma markAsRead_twice_witness :
  exists w1 w2,
    markAsRead 3 Burst.w11 = (Ok marked_as_read_200, w1) /\
    markAsRead 3 w1 = (Ok marked_as_read_200, w2) /\
    messages w2 = messages w1 /\ gw_calls w2 = gw_calls w1.
Proof.
  destruct (markAsRead_twice 3 Burst.conv Burst.w11 eq_refl
              ltac:(vm_compute; reflexivity))
    as (w1 & w2 & R1 & R2 & _ & M & _ & G).
  exists w1, w2. repeat split; assumption.
Defined.

(** X16: on a reliable database, mark-as-read answers 404 and changes
    nothing for an unknown conversation; for a known one whose instance is
    not CONNECTED, or that has nothing unread, it calls the gateway not at
    all and still marks the messages and resets the count. *)
Theorem markAsRead_without_receipt id w :
  db_reliable w ->
  (find (fun c => Nat.eqb (cv_id c) id) (conversations w) = None ->
   markAsRead id w = (Ok not_found_404, w)) /\
  (forall cv,
     find (fun c => Nat.eqb (cv_id c) id) (conversations w) = Some cv ->
     (forall inst, prisma.instance_byId (cv_instanceId cv) w = Some inst ->
                   i_status inst <> CONNECTED)
     \/ filter (unread_inbound id) (messages w) = [] ->
     exists w',
       markAsRead id w = (Ok marked_as_read_200, w') /\
       gw_calls w' = gw_calls w /\
       messages w' =
         map (fun m => if unread_inbound id m then prisma.with_status READ m else m)
             (messages w) /\
       find (fun c => Nat.eqb (cv_id c) id) (conversations w')
         = Some (with_unreadCount 0 cv)).
Proof.
  intros Hw. split.
  - intros Hc. unfold markAsRead, try_catch, markAsRead_try.
    assert (R0 : conversation_with_includes id w = (Ok None, w)).
    { unfold conversation_with_includes.
      rewrite (run_bind _ _ _ _ _ (db_call_reliable w Hw)), Hc. reflexivity. }
    rewrite (run_bind _ _ _ _ _ R0). reflexivity.
  - intros cv Hc Hq.
    destruct (markAsRead_run id cv w Hw Hc)
      as (w' & R & _ & _ & _ & Ms & Cv & _ & Gw).
    exists w'. split; [exact R|]. split; [|split; [exact Ms|]].
    + rewrite Gw. rewrite <- (app_nil_r (gw_calls w)) at 2. f_equal.
      destruct Hq as [Hq|Hq]; [|apply receipts_none, Hq].
      unfold receipts.
      destruct (prisma.instance_byId (cv_instanceId cv) w) as [inst|];
        [|reflexivity].
      specialize (Hq inst eq_refl).
      destruct (i_status inst); try reflexivity. congruence.
    + apply (markAsRead_resets id cv w w' Hc Cv); [reflexivity | exact Hc].
Qed.

Lemma markAsRead_without_receipt_witness :
  markAsRead 7 Sample.w1 = (Ok not_found_404, Sample.w1).
Proof.
  exact (proj1 (markAsRead_without_receipt 7 Sample.w1 eq_refl) eq_refl).
Defined.

(** ** What a new message leaves in the store *)



(** ** Instance controller *)

Lemma instance_findUnique_id_run id w :
  db_reliable w ->
  instance_findUnique_id id w =
  (Ok (find (fun i => Nat.eqb (i_id i) id) (instances w)), w).
Proof.
  intros Hw. unfold instance_findUnique_id.
  rewrite (run_bind _ _ _ _ _ (db_call_reliable w Hw)). reflexivity.
Qed.

Lemma instance_create_run name a q st w :
  db_reliable w ->
  find (fun i => i_name i =? name) (instances w) = None ->
  instance_create name a q st w =
  (let i := {| i_id := next_id w; i_name := name; i_apiKey := a;
               i_status := st; i_qrCode := q |} in
   (Ok i, set_next_id (S (next_id w)) (set_instances (instances w ++ [i]) w))).
Proof.
  intros Hw Hn. unfold instance_create.
  rewrite (run_bind _ _ _ _ _ (db_call_reliable w Hw)).
  rewrite (find_none_existsb _ _ Hn). reflexivity.
Qed.

Lemma gateway_answer_accepts {A} (a : A) w :
  gateway_accepts w -> gateway_answer a w = (Ok a, answered w).
Proof.
  unfold gateway_accepts, gateway_answer, answered.
  intros [H|[f H]]; rewrite H; reflexivity.
Qed.

Lemma gateway_answer_rejects {A} (a : A) w f :
  gw_faults w = true :: f -> gateway_answer a w = (Throw GatewayError, answered w).
Proof. unfold gateway_answer, answered. intros ->. reflexivity. Qed.

(** X18: [createInstance] refuses an empty name with 400 before any call,
    and a name the store already has with 400 before the gateway is asked;
    when the gateway rejects, it answers 500 and stores nothing; when the
    gateway answers, it appends one instance of that name, QRCODE when the
    answer carries a pairing code and DISCONNECTED otherwise, and replies
    with it. *)
Theorem createInstance_effect name answer w :
  (createInstance "" answer w
   = (Ok (ReplyError 400 "Nome da instância é obrigatório"), w)) /\
  (db_reliable w -> name <> "" ->
   (find (fun i => i_name i =? name) (instances w) <> None ->
    createInstance name answer w
    = (Ok (ReplyError 400 "Já existe uma instância com esse nome"), w)) /\
   (find (fun i => i_name i =? name) (instances w) = None ->
    (forall f, gw_faults w = true :: f ->
       createInstance name answer w
       = (Ok (ReplyError 500 "Erro ao criar instância"), answered w)) /\
    (forall r, gateway_accepts w -> answer = Some r ->
       let inst := created_instance name r (next_id w) in
       createInstance name answer w
       = (Ok (ReplyCreated inst (answer_qrcode r)),
          set_next_id (S (next_id w))
            (set_instances (instances w ++ [inst]) (answered w))) /\
       find (fun i => i_name i =? name) (instances w ++ [inst]) = Some inst))).
Proof.
  split; [reflexivity|].
  intros Hw Hn. apply String.eqb_neq in Hn.
  unfold createInstance, try_catch, createInstance_try. rewrite Hn.
  rewrite (run_bind _ _ _ _ _ (instance_findUnique_run w Hw _)).
  split.
  - intros Hf. destruct (find _ (instances w)); [reflexivity | congruence].
  - intros Hf. rewrite Hf. split.
    + intros f Hg. rewrite (run_bind_throw _ _ _ _ _ (gateway_answer_rejects _ w f Hg)).
      reflexivity.
    + intros r Ha ->. cbv zeta.
      rewrite (run_bind _ _ _ _ _ (gateway_answer_accepts _ w Ha)).
      assert (Hw' : db_reliable (answered w)).
      { unfold answered. destruct (gw_faults w); exact Hw. }
      assert (Hi' : instances (answered w) = instances w).
      { unfold answered. destruct (gw_faults w); reflexivity. }
      assert (Hn' : next_id (answered w) = next_id w).
      { unfold answered. destruct (gw_faults w); reflexivity. }
      assert (Hf' : find (fun i => i_name i =? name) (instances (answered w)) = None)
        by (rewrite Hi'; exact Hf).
      rewrite (run_bind _ _ _ _ _ (instance_create_run name _ _ _ _ Hw' Hf')).
      rewrite Hn', Hi'. split; [reflexivity|].
      rewrite find_app, Hf. simpl. rewrite String.eqb_refl. reflexivity.
Qed.

Lemma createInstance_effect_witness :
  createInstance "shop1" None Sample.w0
  = (Ok (ReplyError 400 "Já existe uma instância com esse nome"), Sample.w0).
Proof.
  apply (proj1 (proj2 (createInstance_effect "shop1" None Sample.w0) eq_refl
                      ltac:(discriminate))).
  discriminate.
Defined.

Lemma answered_reliable w : db_reliable w -> db_reliable (answered w).
Proof. unfold answered. destruct (gw_faults w); auto. Qed.

Lemma answered_instances w : instances (answered w) = instances w.
Proof. unfold answered. destruct (gw_faults w); reflexivity. Qed.

(** X19: polling the connection state of a known instance, on a reliable
    database with a gateway that answers: the state is the answer's
    [instance.state], else its [state], else "close"; it maps to the status
    as in the webhook's connection update; nothing is written when the
    stored status is already that one; otherwise the status is stored and
    the pairing code cleared exactly on CONNECTED; no socket event is
    emitted either way.  An unknown id is answered 404, a rejecting gateway
    500, both without a write. *)
Theorem getConnectionState_effect id answer w :
  db_reliable w ->
  let state := polled_state answer in
  let status := polled_status state in
  polled_status state = connection_status (Some state) /\
  (answer = None -> state = "close") /\
  (find (fun i => Nat.eqb (i_id i) id) (instances w) = None ->
   getConnectionState id answer w
   = (Ok (ReplyError 404 "Instância não encontrada"), w)) /\
  (forall inst,
     find (fun i => Nat.eqb (i_id i) id) (instances w) = Some inst ->
     (forall f, gw_faults w = true :: f ->
        getConnectionState id answer w
        = (Ok (ReplyError 500 "Erro ao verificar status da conexão"),
           answered w)) /\
     (gateway_accepts w -> i_status inst = status ->
        getConnectionState id answer w = (Ok (ReplyState state status), answered w)) /\
     (gateway_accepts w -> i_status inst <> status ->
        getConnectionState id answer w
        = (Ok (ReplyState state status),
           set_instances
             (instances_with id
                (set_instance_status status
                   (if InstanceStatus_eqb status CONNECTED then None
                    else i_qrCode inst)) w)
             (answered w)))).
Proof.
  intros Hw. cbv zeta. split; [reflexivity|]. split; [intros ->; reflexivity|].
  unfold getConnectionState, try_catch, getConnectionState_try.
  rewrite (run_bind _ _ _ _ _ (instance_findUnique_id_run id w Hw)).
  split; [intros ->; reflexivity|].
  intros inst Hi. rewrite Hi. split; [|split].
  - intros f Hg.
    rewrite (run_bind_throw _ _ _ _ _ (gateway_answer_rejects _ w f Hg)).
    reflexivity.
  - intros Ha Hs. rewrite (run_bind _ _ _ _ _ (gateway_answer_accepts _ w Ha)).
    cbv zeta. rewrite Hs.
    assert (E : InstanceStatus_eqb (polled_status (polled_state answer))
                                   (polled_status (polled_state answer)) = true)
      by (destruct (polled_status _); reflexivity).
    rewrite E. reflexivity.
  - intros Ha Hs. rewrite (run_bind _ _ _ _ _ (gateway_answer_accepts _ w Ha)).
    cbv zeta.
    assert (E : InstanceStatus_eqb (i_status inst)
                                   (polled_status (polled_state answer)) = false).
    { destruct (i_status inst), (polled_status _); try reflexivity; congruence. }
    rewrite E. cbn [negb].
    assert (Hi' : find (fun i => Nat.eqb (i_id i) id) (instances (answered w))
                  = Some inst) by (rewrite answered_instances; exact Hi).
    rewrite (run_bind _ _ _ _ _
               (instance_update_run (answered w) (answered_reliable w Hw)
                  _ _ inst Hi')).
    unfold instances_with. rewrite answered_instances. reflexivity.
Qed.

Lemma getConnectionState_effect_witness :
  getConnectionState 1
    (Some {| answer_instance_state := Some "connecting"; answer_state := None |})
    (set_instances [set_instance_status QRCODE (Some "iVBOR") Sample.shop1]
                   Sample.w0)
  = (Ok (ReplyState "connecting" CONNECTING),
     set_instances [set_instance_status CONNECTING (Some "iVBOR") Sample.shop1]
                   Sample.w0).
Proof.
  apply (proj2 (proj2 (proj2 (proj2 (proj2
           (getConnectionState_effect 1
              (Some {| answer_instance_state := Some "connecting";
                       answer_state := None |})
              (set_instances [set_instance_status QRCODE (Some "iVBOR") Sample.shop1]
                             Sample.w0) eq_refl)))
           (set_instance_status QRCODE (Some "iVBOR") Sample.shop1) eq_refl))).
  - left. reflexivity.
  - discriminate.
Defined.


Lemma gateway_failure_ignored w :
  try_catch (gateway_answer tt) (fun _ => ret tt) w = (Ok tt, answered w).
Proof.
  unfold try_catch, gateway_answer, answered.
  destruct (gw_faults w) as [|[] f]; reflexivity.
Qed.

Lemma deleteInstance_run id inst w :
  db_reliable w ->
  find (fun i => Nat.eqb (i_id i) id) (instances w) = Some inst ->
  deleteInstance id w
  = (Ok (ReplyMessage "Instância removida com sucesso"), cascade id (answered w)).
Proof.
  intros Hw Hi. unfold deleteInstance, try_catch, deleteInstance_try.
  rewrite (run_bind _ _ _ _ _ (instance_findUnique_id_run id w Hw)), Hi.
  rewrite (run_bind _ _ _ _ _ (gateway_failure_ignored w)).
  assert (R : instance_delete id (answered w) = (Ok tt, cascade id (answered w))).
  { unfold instance_delete.
    rewrite (run_bind _ _ _ _ _ (db_call_reliable _ (answered_reliable w Hw))).
    rewrite answered_instances, (find_some_existsb _ _ _ Hi). reflexivity. }
  rewrite (run_bind _ _ _ _ _ R). reflexivity.
Qed.



Lemma keeps_all_refl w : keeps_all_indexes w w.
Proof. split; [apply keeps_indexes_refl | auto]. Qed.

Lemma keeps_all_trans w1 w2 w3 :
  keeps_all_indexes w1 w2 -> keeps_all_indexes w2 w3 -> keeps_all_indexes w1 w3.
Proof.
  intros [a b] [a' b']. split; [eapply keeps_indexes_trans; eauto | auto].
Qed.

Lemma keeps_all_same w w' :
  contacts w' = contacts w -> messages w' = messages w ->
  instances w' = instances w -> conversations w' = conversations w ->
  keeps_all_indexes w w'.
Proof.
  intros Hc Hm Hi Hv. split; [apply keeps_indexes_same; assumption|].
  unfold conv_unique. rewrite Hv. auto.
Qed.

Lemma NoDup_map_filter {A B} (f : A -> B) (p : A -> bool) l :
  NoDup (map f l) -> NoDup (map f (filter p l)).
Proof.
  induction l as [|a l IH]; simpl; [auto|].
  intros Hnd. inversion Hnd as [|? ? Hnot Hnd']; subst.
  destruct (p a); simpl; [|auto]. constructor; [|auto].
  intros Hin. apply Hnot. apply in_map_iff in Hin as (x & Hx & Hf).
  apply filter_In in Hf as [Hf _]. rewrite <- Hx. apply in_map, Hf.
Qed.

Lemma keeps_all_db_call : respects keeps_all_indexes db_call.
Proof.
  intros w. apply keeps_all_same; unfold db_call;
    destruct (db_faults w) as [|[] f]; reflexivity.
Qed.

Lemma keeps_all_read {A} (q : World -> A) :
  respects keeps_all_indexes (bind db_call (fun _ w => (Ok (q w), w))).
Proof.
  apply (respects_bind _ keeps_all_trans); [apply keeps_all_db_call|].
  intros _ w. apply keeps_all_refl.
Qed.

Lemma keeps_all_gateway_answer {A} (a : A) :
  respects keeps_all_indexes (gateway_answer a).
Proof.
  intros w. apply keeps_all_same; unfold gateway_answer;
    destruct (gw_faults w) as [|[] f]; reflexivity.
Qed.

Lemma keeps_all_instance_create name a q st :
  respects keeps_all_indexes (instance_create name a q st).
Proof.
  apply (respects_bind _ keeps_all_trans); [apply keeps_all_db_call|].
  intros _ w. destruct (existsb _ (instances w)) eqn:E; [apply keeps_all_refl|].
  cbv zeta. simpl. split; [|auto]. split; [auto|]. split; [auto|].
  unfold instance_names_unique. simpl. intros Hnd.
  apply NoDup_map_snoc; [exact Hnd|].
  intros x Hin Hx. simpl in Hx.
  pose proof (existsb_false_In _ _ _ E Hin) as F. simpl in F.
  rewrite Hx, String.eqb_refl in F. discriminate.
Qed.

Lemma keeps_all_instance_update id s q :
  respects keeps_all_indexes (prisma.instance_update id (set_instance_status s q)).
Proof.
  intros w. split; [apply indexes_instance_update|].
  revert w. field_kept; auto.
Qed.

Lemma keeps_all_instance_delete id : respects keeps_all_indexes (instance_delete id).
Proof.
  apply (respects_bind _ keeps_all_trans); [apply keeps_all_db_call|].
  intros _ w. destruct (existsb _ (instances w)); [|apply keeps_all_refl].
  simpl. unfold keeps_all_indexes, keeps_indexes, contact_unique, message_unique,
    instance_names_unique, conv_unique. simpl.
  repeat split; apply NoDup_map_filter.
Qed.

(** X21: whatever the gateway answers and whichever calls reject,
    [createInstance], [getConnectionState] and [deleteInstance] keep every
    unique index of the store: instance names, (instance, remoteJid) of
    contacts, (instance, contact) of conversations, (instance, external id)
    of messages. *)
Theorem instance_controller_keeps_indexes w :
  (forall name answer,
     keeps_all_indexes w (snd (createInstance name answer w))) /\
  (forall id answer,
     keeps_all_indexes w (snd (getConnectionState id answer w))) /\
  (forall id, keeps_all_indexes w (snd (deleteInstance id w))).
Proof.
  assert (B : forall A B (m : M A) (k : A -> M B),
            respects keeps_all_indexes m ->
            (forall a, respects keeps_all_indexes (k a)) ->
            respects keeps_all_indexes (bind m k))
    by (intros; apply (respects_bind _ keeps_all_trans); assumption).
  assert (T : forall A (m : M A) h,
            respects keeps_all_indexes m ->
            (forall e, respects keeps_all_indexes (h e)) ->
            respects keeps_all_indexes (try_catch m h))
    by (intros; apply (respects_try_catch _ keeps_all_trans); assumption).
  assert (Rt : forall A (a : A), respects keeps_all_indexes (ret a))
    by (intros A a w'; apply keeps_all_refl).
  assert (Th : forall A e, respects keeps_all_indexes (@throw A e))
    by (intros A e w'; apply keeps_all_refl).
  split; [|split].
  - intros name answer. revert w.
    unfold createInstance, createInstance_try, prisma.instance_findUnique.
    apply T; [|intro; apply Rt].
    destruct (name =? ""); [apply Rt|].
    apply B; [apply keeps_all_read|]. intros [i|]; [apply Rt|].
    apply B; [apply keeps_all_gateway_answer|]. intros [r|]; [|apply Th].
    apply B; [apply keeps_all_instance_create | intro; apply Rt].
  - intros id answer. revert w.
    unfold getConnectionState, getConnectionState_try, instance_findUnique_id.
    apply T; [|intro; apply Rt].
    apply B; [apply keeps_all_read|]. intros [i|]; [|apply Rt].
    apply B; [apply keeps_all_gateway_answer|]. intros r. cbv zeta.
    apply B; [|intro; apply Rt].
    destruct (negb _); [apply keeps_all_instance_update | apply Rt].
  - intros id. revert w.
    unfold deleteInstance, deleteInstance_try, instance_findUnique_id.
    apply T; [|intro; apply Rt].
    apply B; [apply keeps_all_read|]. intros [i|]; [|apply Rt].
    apply B; [apply T; [apply keeps_all_gateway_answer | intro; apply Rt]|].
    intros _. apply B; [apply keeps_all_instance_delete | intro; apply Rt].
Qed.

Lemma names_injective l (x y : Instance) :
  NoDup (map i_name l) -> In x l -> In y l -> i_name x = i_name y -> x = y.
Proof.
  induction l as [|a l IH]; simpl; [contradiction|].
  intros Hnd Hx Hy E. inversion Hnd as [|? ? Hnot Hnd']; subst.
  destruct Hx as [->|Hx], Hy as [->|Hy]; auto.
  - exfalso. apply Hnot. rewrite E. apply in_map, Hy.
  - exfalso. apply Hnot. rewrite <- E. apply in_map, Hx.
Qed.

(** X22: once an instance is deleted, on a reliable database with unique
    instance names, every webhook that names it (with no [null] in its
    data) is answered 200 and stores and emits nothing. *)
Theorem webhook_after_delete id inst ev d w :
  db_reliable w -> instance_names_unique w ->
  find (fun i => Nat.eqb (i_id i) id) (instances w) = Some inst ->
  no_null d ->
  exists w1,
    deleteInstance id w
    = (Ok (ReplyMessage "Instância removida com sucesso"), w1) /\
    handleWebhook {| event := Some ev; instance := i_name inst; data := d |} w1
    = (Ok received_200, w1).
Proof.
  intros Hw Hu Hi Hd. exists (cascade id (answered w)).
  split; [exact (deleteInstance_run id inst w Hw Hi)|].
  apply handleWebhook_unknown_instance; [exact (answered_reliable w Hw) | | exact Hd].
  simpl. rewrite answered_instances.
  destruct (find _ (filter _ (instances w))) as [x|] eqn:E; [|reflexivity].
  exfalso. apply find_some in E as [Hin Hname].
  apply filter_In in Hin as [Hin Hid]. apply String.eqb_eq in Hname.
  apply find_some in Hi as [Hin' Hid'].
  assert (x = inst) by (eapply names_injective; eauto). subst x.
  rewrite Hid' in Hid. discriminate.
Qed.

Lemma webhook_after_delete_witness :
  exists w1,
    deleteInstance 1 Sample.w1
    = (Ok (ReplyMessage "Instância removida com sucesso"), w1) /\
    handleWebhook (Sample.upsert_of [Some Sample.msg2]) w1 = (Ok received_200, w1).
Proof.
  apply (webhook_after_delete 1 Sample.shop1 "messages.upsert"
           (DArray [Some Sample.msg2]) Sample.w1).
  - reflexivity.
  - repeat constructor. intros [].
  - vm_compute. reflexivity.
  - repeat constructor. discriminate.
Defined.

(** ** The conversation of an upsert *)



Lemma upsertFor_conversations inst md k c cv w :
  db_reliable w ->
  find (contact_key (i_id inst) (remoteJid k)) (contacts w) = Some c ->
  find (conversation_key (i_id inst) (c_id c)) (conversations w) = Some cv ->
  find (message_key (i_id inst) (key_id k)) (messages w) = None ->
  conversations (snd (upsertFor inst md k w)) =
  map (fun x => if Nat.eqb (cv_id x) (cv_id cv)
                then upsert_updateData (preview_of md) (message_time md (now w))
                                       (fromMe k) cv x
                else x) (conversations w).
Proof.
  intros Hw Hc Hcv Hm. unfold upsertFor.
  destruct (findOrCreateContact_run inst md (remoteJid k) w Hw)
    as (c1 & w1 & R1 & F1 & Cv1 & Ms1 & _ & _ & Keep1).
  rewrite (run_bind _ _ _ _ _ R1).
  pose proof (frame_reliable _ _ F1 Hw) as Hw1.
  destruct (findOrCreateConversation_run inst c1 w1 Hw1)
    as (cv1 & w2 & R2 & F2 & _ & Ms2 & _ & Fcv2 & Case2).
  rewrite (run_bind _ _ _ _ _ R2).
  pose proof (frame_reliable _ _ F2 Hw1) as Hw2.
  rewrite (run_bind _ _ _ _ _ (message_findUnique_run w2 Hw2 _ _)).
  rewrite Cv1, (Keep1 c Hc), Hcv in Case2. destruct Case2 as [-> Cv2].
  assert (Em : find (message_key (i_id inst) (key_id k)) (messages w2) = None)
    by (rewrite Ms2, Ms1; exact Hm).
  rewrite Em.
  destruct (storeAndFanOut_run inst c1 cv md k w2 _ _ Hw2 Em Fcv2)
    as (w3 & upd & R3 & _ & _ & _ & Cv3 & _).
  rewrite R3. simpl. rewrite Cv3, Cv2.
  assert (Hnow : now w2 = now w).
  { destruct F1 as (_ & _ & _ & n1 & _), F2 as (_ & _ & _ & n2 & _). congruence. }
  rewrite Hnow. reflexivity.
Qed.

(** X24: a new message for an existing conversation rewrites the row of
    that conversation only: no conversation is added or removed, and every
    conversation of another identifier keeps its unread count, status and
    preview. *)
Theorem upsert_touches_one_conversation name md k inst c cv w :
  db_reliable w ->
  key md = Some k -> routable k = true ->
  find (fun i => i_name i =? name) (instances w) = Some inst ->
  find (contact_key (i_id inst) (remoteJid k)) (contacts w) = Some c ->
  find (conversation_key (i_id inst) (c_id c)) (conversations w) = Some cv ->
  find (message_key (i_id inst) (key_id k)) (messages w) = None ->
  let w' := snd (handleMessagesUpsert name [Some md] w) in
  List.length (conversations w') = List.length (conversations w) /\
  map cv_id (conversations w') = map cv_id (conversations w) /\
  filter (fun x => negb (Nat.eqb (cv_id x) (cv_id cv))) (conversations w')
  = filter (fun x => negb (Nat.eqb (cv_id x) (cv_id cv))) (conversations w).
Proof.
  intros Hw Hk Hr Hi Hc Hcv Hm. cbv zeta.
  assert (E : conversations (snd (handleMessagesUpsert name [Some md] w))
              = conversations (snd (upsertFor inst md k w))).
  { destruct (upsertFor_run inst md k w Hw) as (w1 & R & _).
    pose proof R as R'.
    rewrite <- (upsertItem_upsertFor name md k inst w Hw Hk Hr Hi) in R'.
    rewrite (handleMessagesUpsert_single _ _ _ _ R'), R. reflexivity. }
  rewrite E, (upsertFor_conversations inst md k c cv w Hw Hc Hcv Hm).
  split; [apply length_map|]. split.
  - rewrite map_map. apply map_ext. intros x.
    destruct (Nat.eqb (cv_id x) (cv_id cv)); reflexivity.
  - clear Hcv E. induction (conversations w) as [|x l IH]; simpl; [reflexivity|].
    destruct (Nat.eqb (cv_id x) (cv_id cv)) eqn:Ex; simpl; rewrite Ex; simpl;
      rewrite IH; reflexivity.
Qed.

Lemma upsert_touches_one_conversation_witness :
  map cv_id (conversations (snd (handleMessagesUpsert "shop1" [Some Sample.msg2]
                                                       Sample.w1)))
  = map cv_id (conversations Sample.w1).
Proof.
  apply (proj1 (proj2 (upsert_touches_one_conversation "shop1" Sample.msg2
           {| remoteJid := Sample.ana; fromMe := false; key_id := "MSG2" |}
           Sample.shop1 Burst.contact
           {| cv_id := 3; cv_status := OPEN; cv_unreadCount := 1;
              cv_lastMessageAt := Some 5000%Z; cv_lastMessage := Some "Oi";
              cv_instanceId := 1; cv_contactId := 2 |}
           Sample.w1 eq_refl eq_refl eq_refl eq_refl
           ltac:(vm_compute; reflexivity) ltac:(vm_compute; reflexivity)
           ltac:(vm_compute; reflexivity)))).
Defined.
